(** * cloud-service-broker: deprovisioning, deployment store, invoker and
      variable context, embedded in Rocq.

    Go functions become Rocq functions.  A Go [(value, error)] result is a
    [result], a [nil]-able error an [option error]; code that talks to the
    database threads the store explicitly.  Go maps are stdpp [gmap]s. *)

From Stdlib Require Import ZArith Ascii String List DecimalString.
From Stdlib.Strings Require Import Byte.
From stdpp Require Import base option list gmap strings fin_maps sorting.
Import ListNotations.

Local Open Scope string_scope.

(** ** Go errors

    [errors.New], the two sentinels of [apiresponses] the broker returns,
    and [fmt.Errorf] with its format string kept as written in the source.
    An operand is a string or an error; an error given by its text
    ([err.Error()]) is written as the error, under the verb [%s] that
    flattens it. *)

Inductive error : Type :=
| ErrAsyncRequired
| ErrInstanceDoesNotExist
| errors_New (msg : string)
| Errorf (format : string) (args : list fmtArg)
with fmtArg : Type :=
| AString (s : string)
| AError (e : error).

Inductive result (A : Type) : Type :=
| Ok (a : A)
| Err (e : error).
Arguments Ok {A} a.
Arguments Err {A} e.

(** The verbs of a format string, in order ([%%] is a literal percent sign). *)
Fixpoint verbs (format : string) : list ascii :=
  match format with
  | String "%" (String c rest) =>
      if Ascii.eqb c "%" then verbs rest else c :: verbs rest
  | String _ rest => verbs rest
  | EmptyString => []
  end.

(** [fmt.Errorf] wraps the operand of a [%w] verb: [Unwrap] returns it. *)
Fixpoint wrapped (vs : list ascii) (args : list fmtArg) : option error :=
  match vs, args with
  | v :: vs', a :: args' =>
      match a with
      | AError e => if Ascii.eqb v "w" then Some e else wrapped vs' args'
      | AString _ => wrapped vs' args'
      end
  | _, _ => None
  end.

Definition Unwrap (e : error) : option error :=
  match e with
  | Errorf format args => wrapped (verbs format) args
  | _ => None
  end.

(** [errors.Is]: the target is the error itself or is reached by unwrapping. *)
Inductive errors_Is : error -> error -> Prop :=
| Is_here e : errors_Is e e
| Is_unwrap e c target : Unwrap e = Some c -> errors_Is c target -> errors_Is e target.

(** ** The encryption capability *)

Definition bytes := list byte.

Class Encryptor (E : Type) := {
  Encrypt : E -> bytes -> result bytes;
  Decrypt : E -> bytes -> result bytes
}.

Module noopencryptor.

Inductive NoopEncryptor : Type := New.

#[global] Instance NoopEncryptor_Encryptor : Encryptor NoopEncryptor := {|
  Encrypt := fun _ plaintext => Ok plaintext;
  Decrypt := fun _ ciphertext => Ok ciphertext
|}.

End noopencryptor.

(** [Decrypt(Encrypt(w))], with the error of either step propagated. *)
Definition roundtrip {E} `{Encryptor E} (enc : E) (w : bytes) : result bytes :=
  match Encrypt enc w with
  | Ok c => Decrypt enc c
  | Err e => Err e
  end.

(** ** The store's codec (package storage) *)

Section Codec.
Context {E : Type} `{Encryptor E}.
(** [json.Unmarshal] into a receiver of type [R]: the receiver after the call
    and the error, if any. *)
Context {R : Type} (json_Unmarshal : bytes -> R -> R * option error).

Definition encodeBytes (s : E) (b : bytes) : result bytes :=
  match Encrypt s b with
  | Err err => Err (Errorf "encryption error: %w" [AError err])
  | Ok c => Ok c
  end.

Definition decodeBytes (s : E) (a : bytes) : result bytes :=
  match Decrypt s a with
  | Err err => Err (Errorf "decryption error: %w" [AError err])
  | Ok d => Ok d
  end.

(** The receiver is a pointer in Go: [decodeJSON] returns it as it is after
    the call, next to the error. *)
Definition decodeJSON (s : E) (a : bytes) (receiver : R) : R * option error :=
  match decodeBytes s a with
  | Err err => (receiver, Some err)
  | Ok b =>
      if Nat.eqb (length b) 0 then (receiver, None)
      else
        match json_Unmarshal b receiver with
        | (receiver', Some err) =>
            (receiver', Some (Errorf "JSON parse error: %w" [AError err]))
        | (receiver', None) => (receiver', None)
        end
  end.

End Codec.

(** ** Engine versions (hashicorp/go-version, an external library)

    The provider only uses [LessThan], which the library defines from
    [Compare]; the version type and [Compare] are the library's. *)

Class VersionOrder (Version : Type) := {
  Compare : Version -> Version -> Z
}.

Definition LessThan {Version} `{VersionOrder Version} (v o : Version) : bool :=
  (Compare v o <? 0)%Z.

Definition GreaterThan {Version} `{VersionOrder Version} (v o : Version) : bool :=
  (Compare v o >? 0)%Z.

Definition Equal {Version} `{VersionOrder Version} (v o : Version) : bool :=
  (Compare v o =? 0)%Z.

(** The library's comparison on the numeric segments of two versions without
    pre-release tag: segment by segment, a shorter version being padded with
    zeros ([1.2] equals [1.2.0]). *)
Definition allZero (segs : list Z) : bool := forallb (Z.eqb 0) segs.

Fixpoint compareSegments (self other : list Z) : Z :=
  match self, other with
  | [], [] => 0
  | [], _ => if allZero other then 0 else (-1)
  | _, [] => if allZero self then 0 else 1
  | lhs :: self', rhs :: other' =>
      if (lhs =? rhs)%Z then compareSegments self' other'
      else if (lhs <? rhs)%Z then (-1) else 1
  end%Z.

#[global] Instance Segments_VersionOrder : VersionOrder (list Z) := {|
  Compare := compareSegments
|}.

(** ** The deployment store and the Terraform provider *)

Section Deployments.
Context {E : Type} `{Encryptor E}.
Context {Version : Type} `{VersionOrder Version}.
(** A workspace: its zero value, how JSON is read into it, and the engine
    version recorded in its state ([workspace.StateVersion]). *)
Context {Workspace : Type}.
Context (zeroWorkspace : Workspace).
Context (json_Unmarshal : bytes -> Workspace -> Workspace * option error).
Context (StateVersion : Workspace -> result Version).

(** Modelled from the spec: [models.TerraformDeployment], declared outside
    the sources; the row as the table holds it, by the fields the tests
    write (spec 3, Deployment). *)
Record TerraformDeploymentRow : Type := {
  row_Workspace : bytes;
  row_LastOperationType : string;
  row_LastOperationState : string;
  row_LastOperationMessage : string
}.

(** Modelled from the spec: [storage.TerraformDeployment], declared outside
    the sources; the record with its workspace decoded, by the fields the
    tests read. *)
Record TerraformDeployment : Type := {
  ID : string;
  TFWorkspace : Workspace;
  LastOperationType : string;
  LastOperationState : string;
  LastOperationMessage : string
}.

(** Modelled from the spec: [storage.Storage], declared outside the sources;
    the encryptor and the table of deployments, one row per id (spec 3:
    deployment GUIDs are unique). *)
Record Storage : Type := {
  encryptor : E;
  terraformDeployments : gmap string TerraformDeploymentRow
}.

(** Modelled from the spec: [GetTerraformDeployment] is not among the
    sources, only its tests are.  Spec 4.4: returns the record or a not-found
    error; decrypts, and fails with a decoding error that wraps the decryption
    cause.  The two messages are the ones the tests expect. *)
Definition GetTerraformDeployment (s : Storage) (id : string) : result TerraformDeployment :=
  match terraformDeployments s !! id with
  | None => Err (Errorf "could not find terraform deployment: %s" [AString id])
  | Some receiver =>
      match decodeJSON json_Unmarshal (encryptor s) (row_Workspace receiver) zeroWorkspace with
      | (_, Some err) =>
          Err (Errorf "error decoding workspace %q: %w" [AString id; AError err])
      | (tfWorkspace, None) =>
          Ok {| ID := id;
                TFWorkspace := tfWorkspace;
                LastOperationType := row_LastOperationType receiver;
                LastOperationState := row_LastOperationState receiver;
                LastOperationMessage := row_LastOperationMessage receiver |}
      end
  end.

(** Modelled from the spec: [tf.TerraformProvider], declared outside the
    sources; the default engine version of its binary context
    ([tfBinContext.DefaultTfVersion]) and the store its
    [GetTerraformDeployment] reads from. *)
Record TerraformProvider : Type := {
  DefaultTfVersion : Version;
  provider_store : Storage
}.

Definition checkTerraformVersion (provider : TerraformProvider) (workspace : Workspace) : option error :=
  match StateVersion workspace with
  | Err err => Some err
  | Ok currentTfVersion =>
      if LessThan currentTfVersion (DefaultTfVersion provider) then
        Some (errors_New "operation attempted with newer version of Terraform than current state, upgrade the service before retrying operation")
      else None
  end.

(** [provider.GetTerraformDeployment] is the store's. *)
Definition CheckUpgradeAvailable (provider : TerraformProvider) (deploymentGUID : string) : option error :=
  match GetTerraformDeployment (provider_store provider) deploymentGUID with
  | Err err => Some err
  | Ok deployment =>
      let workspace := TFWorkspace deployment in
      match checkTerraformVersion provider workspace with
      | Some err => Some err
      | None => None
      end
  end.

End Deployments.

(** ** The broker's Deprovision (package broker) *)

(** [domain.DeprovisionDetails] and [domain.DeprovisionServiceSpec], of the
    brokerapi library. *)
Record DeprovisionDetails : Type := {
  PlanID : string;
  ServiceID : string;
  Force : bool
}.

Record DeprovisionServiceSpec : Type := {
  IsAsync : bool;
  OperationData : string
}.

(** Modelled from the spec: [storage.ServiceInstanceDetails], declared
    outside the sources; the fields spec 3 names for a service instance: the
    identity, the service and plan reference and the operation. *)
Record ServiceInstanceDetails : Type := {
  GUID : string;
  ServiceGUID : string;
  PlanGUID : string;
  OperationType : string;
  OperationGUID : string
}.

(** The line [Deprovision] logs on entry. *)
Record LogLine (CorrelationID : Type) : Type := {
  log_action : string;
  log_correlation : CorrelationID;
  log_instance_id : string;
  log_accepts_incomplete : bool;
  log_details : DeprovisionDetails
}.
Arguments log_action {CorrelationID} _.
Arguments log_correlation {CorrelationID} _.
Arguments log_instance_id {CorrelationID} _.
Arguments log_accepts_incomplete {CorrelationID} _.
Arguments log_details {CorrelationID} _.

(** Modelled from the spec: the broker's [Storage] interface, declared
    outside the sources, as far as [Deprovision] calls it (spec 6: table
    access by primary key, errors surfaced).  Each method takes the database
    as it is and returns it as it has become. *)
Class BrokerStorage (S JSONObject : Type) := {
  ExistsServiceInstanceDetails : string -> S -> result bool * S;
  GetServiceInstanceDetails : string -> S -> result ServiceInstanceDetails * S;
  GetProvisionRequestDetails : string -> S -> result JSONObject * S;
  DeleteServiceInstanceDetails : string -> S -> option error * S;
  DeleteProvisionRequestDetails : string -> S -> option error * S;
  StoreServiceInstanceDetails : ServiceInstanceDetails -> S -> option error * S
}.

(** What the broker owns and mutates: its store and its logger's output. *)
Record World (S CorrelationID : Type) : Type := {
  store : S;
  logged : list (LogLine CorrelationID)
}.
Arguments store {S CorrelationID} _.
Arguments logged {S CorrelationID} _.
Arguments Build_World {S CorrelationID} _ _.

Section Broker.
Context {S JSONObject : Type} `{BrokerStorage S JSONObject}.
(** Opaque collaborators: the request context with the two values read from
    it, service plans, resolved variables, and the name of the deployment of
    an instance. *)
Context {Ctx CorrelationID Identity ServicePlan VarContext : Type}.
Context (correlation_ID : Ctx -> CorrelationID).
Context (DecodeOriginatingIdentityHeader : Ctx -> Identity).
Context (generateTFInstanceID : string -> string).
(** [models.DeprovisionOperationType]. *)
Context (DeprovisionOperationType : string).

(** [paramparser.ProvisionDetails]. *)
Record ProvisionDetails : Type := {
  pd_ServiceID : string;
  pd_PlanID : string;
  RequestParams : JSONObject
}.

(** Modelled from the spec: the [ServiceProvider] interface, declared outside
    the sources; the two methods [Deprovision] calls.
    A provider keeps records of its own (the deployments); the two tables
    behind the broker's store are not its to read or write, so its answers
    do not depend on them and leave them as they are. *)
Record ServiceProvider : Type := {
  sp_CheckUpgradeAvailable : string -> option error;
  sp_Deprovision : Ctx -> string -> DeprovisionDetails -> VarContext -> result (option string)
}.

(** Modelled from the spec: [ServiceDefinition] and [ServiceBroker], declared
    outside the sources; the plan lookup, the resolution of variables and
    the lookup of a service's definition and provider (spec 6). *)
Record ServiceDefinition : Type := {
  GetPlanByID : string -> result ServicePlan;
  ProvisionVariables : string -> ProvisionDetails -> ServicePlan -> Identity -> result VarContext
}.

Record ServiceBroker : Type := {
  getDefinitionAndProvider : string -> result (ServiceDefinition * ServiceProvider)
}.

Definition M (A : Type) : Type := World S CorrelationID -> A * World S CorrelationID.

Definition ret {A} (a : A) : M A := fun w => (a, w).

Definition bind {A B} (m : M A) (k : A -> M B) : M B :=
  fun w => let '(a, w') := m w in k a w'.

(** A call on the broker's store. *)
Definition onStore {A} (op : S -> A * S) : M A :=
  fun w => let '(a, s') := op (store w) in (a, Build_World s' (logged w)).

Definition Logger_Info (line : LogLine CorrelationID) : M unit :=
  fun w => (tt, Build_World (store w) (logged w ++ [line])).

Notation "'let*' x := m 'in' k" := (bind m (fun x => k))
  (at level 10, x name, m at level 100, k at level 200).

Definition Deprovision (broker : ServiceBroker) (ctx : Ctx) (instanceID : string)
    (details : DeprovisionDetails) (clientSupportsAsync : bool)
    : M (DeprovisionServiceSpec * option error) :=
  let response := {| IsAsync := false; OperationData := EmptyString |} in
  let* _ := Logger_Info {| log_action := "Deprovisioning";
                 log_correlation := correlation_ID ctx;
                 log_instance_id := instanceID;
                 log_accepts_incomplete := clientSupportsAsync;
                 log_details := details |} in
  if negb clientSupportsAsync then ret (response, Some ErrAsyncRequired) else
  (* make sure that instance actually exists *)
  let* r := onStore (ExistsServiceInstanceDetails instanceID) in
  match r with
  | Err err =>
      ret (response, Some (Errorf "database error checking for existing instance: %s" [AError err]))
  | Ok false => ret (response, Some ErrInstanceDoesNotExist)
  | Ok true =>
  let* r := onStore (GetServiceInstanceDetails instanceID) in
  match r with
  | Err err =>
      ret (response, Some (Errorf "database error getting existing instance: %s" [AError err]))
  | Ok instance =>
  match getDefinitionAndProvider broker (ServiceGUID instance) with
  | Err err => ret (response, Some err)
  | Ok (serviceDefinition, serviceProvider) =>
  match sp_CheckUpgradeAvailable serviceProvider (generateTFInstanceID instanceID) with
  | Some err =>
      ret (response, Some (Errorf "failed to delete: %s" [AError err]))
  | None =>
  (* verify the service exists and the plan exists *)
  match GetPlanByID serviceDefinition (PlanID details) with
  | Err err => ret (response, Some err)
  | Ok plan =>
  let* r := onStore (GetProvisionRequestDetails instanceID) in
  match r with
  | Err err =>
      ret (response, Some (Errorf "error retrieving provision request details for %q: %w"
                                  [AString instanceID; AError err]))
  | Ok parameters =>
  let provisionDetails := {| pd_ServiceID := ServiceID details;
                             pd_PlanID := PlanID details;
                             RequestParams := parameters |} in
  match ProvisionVariables serviceDefinition instanceID provisionDetails plan
          (DecodeOriginatingIdentityHeader ctx) with
  | Err err => ret (response, Some err)
  | Ok vars =>
  match sp_Deprovision serviceProvider ctx (GUID instance) details vars with
  | Err err => ret (response, Some err)
  | Ok None =>
      (* soft-delete instance details from the db if this is a synchronous
         operation *)
      let* r := onStore (DeleteServiceInstanceDetails instanceID) in
      match r with
      | Some err =>
          ret (response, Some (Errorf "error deleting instance details from database: %s. WARNING: this instance will remain visible in cf. Contact your operator for cleanup" [AError err]))
      | None =>
      let* r := onStore (DeleteProvisionRequestDetails instanceID) in
      match r with
      | Some err =>
          ret (response, Some (Errorf "error deleting provision request details from the database: %w" [AError err]))
      | None => ret (response, None)
      end
      end
  | Ok (Some operationID) =>
      let response := {| IsAsync := true; OperationData := operationID |} in
      let instance := {| GUID := GUID instance;
                         ServiceGUID := ServiceGUID instance;
                         PlanGUID := PlanGUID instance;
                         OperationType := DeprovisionOperationType;
                         OperationGUID := operationID |} in
      let* r := onStore (StoreServiceInstanceDetails instance) in
      match r with
      | Some err =>
          ret (response, Some (Errorf "error saving instance details to database: %s. WARNING: this instance will remain visible in cf. Contact your operator for cleanup" [AError err]))
      | None => ret (response, None)
      end
  end end end end end end end end.

End Broker.

(** ** An in-memory database behind the broker's store *)

Inductive StoreCall : Type :=
| CallExistsServiceInstanceDetails (id : string)
| CallGetServiceInstanceDetails (id : string)
| CallGetProvisionRequestDetails (id : string)
| CallDeleteServiceInstanceDetails (id : string)
| CallDeleteProvisionRequestDetails (id : string)
| CallStoreServiceInstanceDetails (d : ServiceInstanceDetails).

(** Modelled from the spec: the store's implementation is not among the
    sources.  Spec 6: table access by primary key (create, find, update,
    delete), every error surfaced as it is.  The two tables are maps from the
    id to the row; [failing] says which calls the database refuses and with
    which error; [calls] records the calls made, oldest first.  A delete of an
    absent row succeeds (spec 8, for deployments). *)
Record MemStore (JSONObject : Type) : Type := {
  instanceRows : gmap string ServiceInstanceDetails;
  requestRows : gmap string JSONObject;
  failing : StoreCall -> option error;
  calls : list StoreCall
}.
Arguments instanceRows {JSONObject} _.
Arguments requestRows {JSONObject} _.
Arguments failing {JSONObject} _.
Arguments calls {JSONObject} _.
Arguments Build_MemStore {JSONObject} _ _ _ _.

Section MemStore.
Context {JSONObject : Type}.

(** Modelled from the spec: the six methods on the in-memory tables.  Each
    records its call; a refused call changes nothing else.  Reading an
    absent row is an error of the store's own. *)
Definition called (c : StoreCall) (db : MemStore JSONObject) : MemStore JSONObject :=
  Build_MemStore (instanceRows db) (requestRows db) (failing db) (calls db ++ [c]).

Definition mem_Exists (id : string) (db : MemStore JSONObject) : result bool * MemStore JSONObject :=
  let c := CallExistsServiceInstanceDetails id in
  match failing db c with
  | Some err => (Err err, called c db)
  | None => (Ok (bool_decide (is_Some (instanceRows db !! id))), called c db)
  end.

Definition mem_Get (id : string) (db : MemStore JSONObject) : result ServiceInstanceDetails * MemStore JSONObject :=
  let c := CallGetServiceInstanceDetails id in
  match failing db c with
  | Some err => (Err err, called c db)
  | None =>
      match instanceRows db !! id with
      | Some row =>
          (Ok {| GUID := id;
                 ServiceGUID := ServiceGUID row;
                 PlanGUID := PlanGUID row;
                 OperationType := OperationType row;
                 OperationGUID := OperationGUID row |}, called c db)
      | None =>
          (Err (Errorf "could not find service instance details for: %s" [AString id]),
           called c db)
      end
  end.

Definition mem_GetRequest (id : string) (db : MemStore JSONObject) : result JSONObject * MemStore JSONObject :=
  let c := CallGetProvisionRequestDetails id in
  match failing db c with
  | Some err => (Err err, called c db)
  | None =>
      match requestRows db !! id with
      | Some params => (Ok params, called c db)
      | None =>
          (Err (Errorf "could not find provision request details for service instance: %s" [AString id]),
           called c db)
      end
  end.

Definition mem_DeleteInstance (id : string) (db : MemStore JSONObject) : option error * MemStore JSONObject :=
  let c := CallDeleteServiceInstanceDetails id in
  match failing db c with
  | Some err => (Some err, called c db)
  | None =>
      (None, Build_MemStore (delete id (instanceRows db)) (requestRows db)
                            (failing db) (calls db ++ [c]))
  end.

Definition mem_DeleteRequest (id : string) (db : MemStore JSONObject) : option error * MemStore JSONObject :=
  let c := CallDeleteProvisionRequestDetails id in
  match failing db c with
  | Some err => (Some err, called c db)
  | None =>
      (None, Build_MemStore (instanceRows db) (delete id (requestRows db))
                            (failing db) (calls db ++ [c]))
  end.

Definition mem_StoreInstance (d : ServiceInstanceDetails) (db : MemStore JSONObject) : option error * MemStore JSONObject :=
  let c := CallStoreServiceInstanceDetails d in
  match failing db c with
  | Some err => (Some err, called c db)
  | None =>
      (None, Build_MemStore (<[GUID d := d]> (instanceRows db)) (requestRows db)
                            (failing db) (calls db ++ [c]))
  end.

#[global] Instance MemStore_BrokerStorage : BrokerStorage (MemStore JSONObject) JSONObject := {|
  ExistsServiceInstanceDetails := mem_Exists;
  GetServiceInstanceDetails := mem_Get;
  GetProvisionRequestDetails := mem_GetRequest;
  DeleteServiceInstanceDetails := mem_DeleteInstance;
  DeleteProvisionRequestDetails := mem_DeleteRequest;
  StoreServiceInstanceDetails := mem_StoreInstance
|}.

End MemStore.

(** ** The Terraform 0.12 invoker (package invoker) *)

(** Modelled from the spec: the commands of package [command], declared
    outside the sources, by the constructors the invoker calls (spec 3,
    Command: init, apply, plan, show, destroy, import). *)
Inductive TerraformCommand : Type :=
| NewInit012 (pluginDirectory : string)
| NewApply
| NewShow
| NewDestroy
| NewPlan
| NewImport (resource id : string).

(** Modelled from the spec: [executor.ExecutionOutput], declared outside the
    sources; the captured output of a run (spec 6). *)
Record ExecutionOutput : Type := {
  StdOut : string;
  StdErr : string
}.

(** Modelled from the spec: the [workspace.Workspace] interface, declared
    outside the sources, as far as the invoker calls it: [Execute] runs the
    commands on an executor and changes the workspace (spec 4.2). *)
Class WorkspaceExecute (W Executor : Type) := {
  Execute : W -> Executor -> list TerraformCommand -> (ExecutionOutput * option error) * W
}.

Section Invoker.
Context {W Executor : Type} `{WorkspaceExecute W Executor}.

Record Terraform012Invoker : Type := {
  executor : Executor;
  pluginDirectory : string
}.

Definition NewTerraform012Invoker (executor : Executor) (pluginDirectory : string) : Terraform012Invoker :=
  {| executor := executor; pluginDirectory := pluginDirectory |}.

Definition Apply (cmd : Terraform012Invoker) (workspace : W) : option error * W :=
  let '((_, err), workspace') :=
    Execute workspace (executor cmd) [NewInit012 (pluginDirectory cmd); NewApply] in
  (err, workspace').

Definition Show (cmd : Terraform012Invoker) (workspace : W) : (string * option error) * W :=
  let '((output, err), workspace') :=
    Execute workspace (executor cmd) [NewInit012 (pluginDirectory cmd); NewShow] in
  ((StdOut output, err), workspace').

Definition Destroy (cmd : Terraform012Invoker) (workspace : W) : option error * W :=
  let '((_, err), workspace') :=
    Execute workspace (executor cmd) [NewInit012 (pluginDirectory cmd); NewDestroy] in
  (err, workspace').

Definition Plan (cmd : Terraform012Invoker) (workspace : W) : (ExecutionOutput * option error) * W :=
  Execute workspace (executor cmd) [NewInit012 (pluginDirectory cmd); NewPlan].

(** The import command of a pair of the resources map. *)
Definition importOf (pair : string * string) : TerraformCommand :=
  NewImport pair.1 pair.2.

(** Go ranges over a map in an order of the runtime's choosing: [ranged] is
    the pairs of [resources] in the order this call's loop meets them. *)
Definition rangeOf (resources : gmap string string) (ranged : list (string * string)) : Prop :=
  ranged ≡ₚ map_to_list resources.

Definition Import (cmd : Terraform012Invoker) (workspace : W)
    (ranged : list (string * string)) : option error * W :=
  let commands := [NewInit012 (pluginDirectory cmd)] in
  let commands :=
    fold_left (fun commands '(resource, id) => (commands ++ [NewImport resource id])%list)
              ranged commands in
  let '((_, err), workspace') := Execute workspace (executor cmd) commands in
  (err, workspace').

End Invoker.

(** A workspace that records each call of [Execute] and answers as it was
    told to, like the generated fake the invoker's tests use. *)
Record FakeWorkspace : Type := {
  ExecuteReturns : ExecutionOutput * option error;
  ExecuteArgsForCall : list (list TerraformCommand)
}.

#[global] Instance FakeWorkspace_Execute {Executor} : WorkspaceExecute FakeWorkspace Executor := {|
  Execute := fun w _ commands =>
    (ExecuteReturns w,
     {| ExecuteReturns := ExecuteReturns w;
        ExecuteArgsForCall := ExecuteArgsForCall w ++ [commands] |})
|}.

(** ** The variable context builder (package varcontext) *)

Section Builder.
(** [V] is Go's [interface{}]: the values a context holds, nested or not. *)
Context {V : Type}.
(** External collaborators: template evaluation against a context, the cast
    of a value to a declared type, JSON decoding into a map, and the test
    whether a value is a string (and so a template). *)
Context (Eval : string -> gmap string V -> result V).
Context (castTo : V -> string -> result V).
Context (json_Unmarshal_map : bytes -> result (gmap string V)).
Context (asString : V -> option string).

Record DefaultVariable : Type := {
  Name : string;
  Default : option V;
  Overwrite : bool;
  Type_ : string
}.

(** A field of a struct given to [MergeStruct]: its own name, the name its
    tag declares, if any, and its value. *)
Record StructField : Type := {
  fieldName : string;
  jsonTag : option string;
  fieldValue : V
}.

(** Modelled from the spec: the builder is not among the sources, only its
    tests are.  Spec 3 and 4.3: a flat mapping built step by step, the
    declared constants an overlay on it for expression evaluation, and the
    first error, after which every call is a no-op. *)
Record ContextBuilder : Type := {
  context : gmap string V;
  constants : gmap string V;
  errors : option error
}.

(** Modelled from the spec: [Builder()], the fresh builder. *)
Definition Builder : ContextBuilder :=
  {| context := ∅; constants := ∅; errors := None |}.

(** Modelled from the spec: the first error is kept; [AppendError] is only
    reached while there is none. *)
Definition AppendError (err : error) (builder : ContextBuilder) : ContextBuilder :=
  {| context := context builder; constants := constants builder; errors := Some err |}.

Definition setContext (c : gmap string V) (builder : ContextBuilder) : ContextBuilder :=
  {| context := c; constants := constants builder; errors := errors builder |}.

(** Modelled from the spec: every call is a no-op once an error is
    recorded. *)
Definition unlessFailed (f : ContextBuilder -> ContextBuilder) (builder : ContextBuilder) : ContextBuilder :=
  match errors builder with
  | Some _ => builder
  | None => f builder
  end.

(** Modelled from the spec: [SetEvalConstants(map)], constants visible to
    every later expression evaluation. *)
Definition SetEvalConstants (consts : gmap string V) : ContextBuilder -> ContextBuilder :=
  unlessFailed (fun builder =>
    {| context := context builder;
       constants := consts ∪ constants builder;
       errors := errors builder |}).

(** Modelled from the spec: [MergeMap(map)], unconditional last-write-wins
    per key. *)
Definition MergeMap (data : gmap string V) : ContextBuilder -> ContextBuilder :=
  unlessFailed (fun builder => setContext (data ∪ context builder) builder).

(** What a template sees: the context, with the constants laid over it. *)
Definition evaluationContext (builder : ContextBuilder) : gmap string V :=
  constants builder ∪ context builder.

(** Modelled from the spec: [MergeEvalResult(name, expr, type)] evaluates the
    expression at once, casts and stores the result. *)
Definition MergeEvalResult (key template resultType : string) : ContextBuilder -> ContextBuilder :=
  unlessFailed (fun builder =>
    match Eval template (evaluationContext builder) with
    | Err err =>
        AppendError (Errorf "couldn't compute the value for %q, template: %q, %v"
                            [AString key; AString template; AError err]) builder
    | Ok result =>
        match castTo result resultType with
        | Err err => AppendError err builder
        | Ok converted => setContext (<[key := converted]> (context builder)) builder
        end
    end).

(** Modelled from the spec: [MergeDefaultWithEval(defaults)].  An entry
    without default is skipped, one whose key exists is skipped unless it
    overwrites; a string default is evaluated as a template and cast, any
    other default is stored as it is. *)
Definition mergeDefault (v : DefaultVariable) : ContextBuilder -> ContextBuilder :=
  unlessFailed (fun builder =>
    match Default v with
    | None => builder
    | Some d =>
        if bool_decide (is_Some (context builder !! Name v)) && negb (Overwrite v)
        then builder
        else
          match asString d with
          | Some strVal => MergeEvalResult (Name v) strVal (Type_ v) builder
          | None => setContext (<[Name v := d]> (context builder)) builder
          end
    end).

(** Modelled from the spec: the entries are merged in order. *)
Definition MergeDefaultWithEval (brokerVariables : list DefaultVariable) (builder : ContextBuilder) : ContextBuilder :=
  fold_left (fun b v => mergeDefault v b) brokerVariables builder.

(** Modelled from the spec: [MergeJSONObject(raw)] merges the top-level keys
    of an object and fails on malformed or non-object input; a blank message
    merges nothing (the tests). *)
Definition MergeJSONObject (data : bytes) : ContextBuilder -> ContextBuilder :=
  unlessFailed (fun builder =>
    if Nat.eqb (length data) 0 then builder
    else
      match json_Unmarshal_map data with
      | Err err => AppendError err builder
      | Ok out => MergeMap out builder
      end).

(** Modelled from the spec: [MergeStruct(value)] merges the named fields,
    under the name the tag declares, else under the field's own. *)
Definition structMap (fields : list StructField) : gmap string V :=
  fold_left (fun m f => <[default (fieldName f) (jsonTag f) := fieldValue f]> m) fields ∅.

(** Modelled from the spec: [MergeStruct(value)], a plain merge of the
    struct's fields. *)
Definition MergeStruct (fields : list StructField) : ContextBuilder -> ContextBuilder :=
  MergeMap (structMap fields).

(** Modelled from the spec: [Build()] gives the map view or the first error. *)
Definition Build (builder : ContextBuilder) : result (gmap string V) :=
  match errors builder with
  | Some err => Err err
  | None => Ok (context builder)
  end.

(** A chain of calls on a builder, first call first. *)
Inductive BuilderCall : Type :=
| CallSetEvalConstants (consts : gmap string V)
| CallMergeMap (data : gmap string V)
| CallMergeEvalResult (key template resultType : string)
| CallMergeDefaultWithEval (brokerVariables : list DefaultVariable)
| CallMergeJSONObject (data : bytes)
| CallMergeStruct (fields : list StructField).

Definition call (c : BuilderCall) : ContextBuilder -> ContextBuilder :=
  match c with
  | CallSetEvalConstants consts => SetEvalConstants consts
  | CallMergeMap data => MergeMap data
  | CallMergeEvalResult key template resultType => MergeEvalResult key template resultType
  | CallMergeDefaultWithEval brokerVariables => MergeDefaultWithEval brokerVariables
  | CallMergeJSONObject data => MergeJSONObject data
  | CallMergeStruct fields => MergeStruct fields
  end.

Definition chain (calls : list BuilderCall) (builder : ContextBuilder) : ContextBuilder :=
  fold_left (fun b c => call c b) calls builder.

(** *** What the claims speak of *)

(** The map a plain merge supplies: the one given, or the one decoded. *)
Definition supplied (c : BuilderCall) : gmap string V :=
  match c with
  | CallMergeMap data => data
  | CallMergeJSONObject data =>
      if Nat.eqb (length data) 0 then ∅
      else match json_Unmarshal_map data with
           | Ok out => out
           | Err _ => ∅
           end
  | _ => ∅
  end.

Definition isPlainMerge (c : BuilderCall) : bool :=
  match c with
  | CallMergeMap _ | CallMergeJSONObject _ => true
  | _ => false
  end.

(** The value the last call that set [k] supplied for it, if any call did. *)
Fixpoint lastSupplied (k : string) (calls : list BuilderCall) : option V :=
  match calls with
  | [] => None
  | c :: rest =>
      match lastSupplied k rest with
      | Some v => Some v
      | None => supplied c !! k
      end
  end.

(** Whether a call declares the constant [k]. *)
Definition declares (k : string) (c : BuilderCall) : bool :=
  match c with
  | CallSetEvalConstants consts => bool_decide (is_Some (consts !! k))
  | _ => false
  end.

(** The value the last call that declared the constant [k] gave it, if any
    call did. *)
Definition declared (c : BuilderCall) : gmap string V :=
  match c with
  | CallSetEvalConstants consts => consts
  | _ => ∅
  end.

Fixpoint lastDeclared (k : string) (calls : list BuilderCall) : option V :=
  match calls with
  | [] => None
  | c :: rest =>
      match lastDeclared k rest with
      | Some v => Some v
      | None => declared c !! k
      end
  end.

(** Whether a call may store a value under [k] in the context. *)
Definition storesUnder (k : string) (c : BuilderCall) : bool :=
  match c with
  | CallSetEvalConstants _ => false
  | CallMergeMap data => bool_decide (is_Some (data !! k))
  | CallMergeEvalResult key _ _ => bool_decide (key = k)
  | CallMergeDefaultWithEval brokerVariables =>
      existsb (fun v => bool_decide (Name v = k)) brokerVariables
  | CallMergeJSONObject _ => bool_decide (is_Some (supplied c !! k))
  | CallMergeStruct fields => bool_decide (is_Some (structMap fields !! k))
  end.

End Builder.

(** ** The encryptor of the store's tests *)

Definition dquote : string := String (ascii_of_byte x22) EmptyString.

Fixpoint hasPrefix (s prefix : bytes) : bool :=
  match prefix, s with
  | [], _ => true
  | p :: prefix', c :: s' => Byte.eqb p c && hasPrefix s' prefix'
  | _ :: _, [] => false
  end.

Fixpoint strings_Contains (s substr : bytes) : bool :=
  hasPrefix s substr ||
  match s with
  | [] => false
  | _ :: s' => strings_Contains s' substr
  end.

Module storagefakes.

Inductive FakeEncryptor : Type := TestEncryptor.

Definition DecryptStub (b : bytes) : result bytes :=
  if String.eqb (string_of_list_byte b) "cannot-be-decrypted"
  then Err (errors_New "fake decryption error")
  else Ok b.

Definition EncryptStub (b : bytes) : result bytes :=
  if strings_Contains b (list_byte_of_string "cannot-be-encrypted")
  then Err (errors_New "fake encryption error")
  else Ok (list_byte_of_string ("{" ++ dquote ++ "encrypted" ++ dquote ++ ":")
           ++ b ++ list_byte_of_string "}")%list.

#[global] Instance FakeEncryptor_Encryptor : Encryptor FakeEncryptor := {|
  Encrypt := fun _ => EncryptStub;
  Decrypt := fun _ => DecryptStub
|}.

End storagefakes.

(** ** The error kinds of the deployment store *)

(** The spec's [NotFoundError] and [DecodingError], by the shape of the
    error value. *)
Definition NotFoundError (id : string) : error :=
  Errorf "could not find terraform deployment: %s" [AString id].

Definition DecodingError (id : string) (cause : error) : error :=
  Errorf "error decoding workspace %q: %w" [AString id; AError cause].

Definition isNotFoundError (e : error) : bool :=
  match e with
  | Errorf format _ => String.eqb format "could not find terraform deployment: %s"
  | _ => false
  end.

Definition isDecodingError (e : error) : bool :=
  match e with
  | Errorf format _ => String.eqb format "error decoding workspace %q: %w"
  | _ => false
  end.

(** The error of the version check. *)
Definition ErrNewerVersion : error :=
  errors_New "operation attempted with newer version of Terraform than current state, upgrade the service before retrying operation".

(** ** The road to the provider's answer

    What has to hold for [Deprovision], on the in-memory database, to get as
    far as the provider's [Deprovision] and be answered [operationID]. *)
Section Answered.
Context {JSONObject Ctx CorrelationID Identity ServicePlan VarContext : Type}.
Context (DecodeOriginatingIdentityHeader : Ctx -> Identity).
Context (generateTFInstanceID : string -> string).

Record ProviderAnswered
    (broker : @ServiceBroker JSONObject Ctx Identity ServicePlan VarContext)
    (ctx : Ctx) (instanceID : string) (details : DeprovisionDetails)
    (db : MemStore JSONObject)
    (row : ServiceInstanceDetails) (parameters : JSONObject)
    (operationID : option string) : Prop := {
  answered_exists_ok : failing db (CallExistsServiceInstanceDetails instanceID) = None;
  answered_row : instanceRows db !! instanceID = Some row;
  answered_get_ok : failing db (CallGetServiceInstanceDetails instanceID) = None;
  answered_request_ok : failing db (CallGetProvisionRequestDetails instanceID) = None;
  answered_parameters : requestRows db !! instanceID = Some parameters;
  answered_provider :
    exists serviceDefinition serviceProvider plan vars,
      getDefinitionAndProvider broker (ServiceGUID row) = Ok (serviceDefinition, serviceProvider)
      /\ sp_CheckUpgradeAvailable serviceProvider (generateTFInstanceID instanceID) = None
      /\ GetPlanByID serviceDefinition (PlanID details) = Ok plan
      /\ ProvisionVariables serviceDefinition instanceID
           {| pd_ServiceID := ServiceID details; pd_PlanID := PlanID details;
              RequestParams := parameters |}
           plan (DecodeOriginatingIdentityHeader ctx) = Ok vars
      /\ sp_Deprovision serviceProvider ctx instanceID details vars = Ok operationID
}.

End Answered.

(** ** A small deployment store to run the definitions on

    A workspace reduced to the engine version its state records, stored as
    one byte per segment. *)
Module Sample.

Definition Workspace : Type := list Z.

Definition zeroWorkspace : Workspace := [].

Definition json_Unmarshal (b : bytes) (_ : Workspace) : Workspace * option error :=
  (map (fun c => Z.of_N (Byte.to_N c)) b, None).

Definition StateVersion (w : Workspace) : result (list Z) := Ok w.

Definition row (blob : bytes) : TerraformDeploymentRow :=
  {| row_Workspace := blob;
     row_LastOperationType := "update";
     row_LastOperationState := "succeeded";
     row_LastOperationMessage := "great" |}.

(** State written by engine 1.1.4 and by engine 0.12.21. *)
Definition plainStore : @Storage noopencryptor.NoopEncryptor :=
  {| encryptor := noopencryptor.New;
     terraformDeployments :=
       {[ "tf:new:" := row [x01; x01; x04]; "tf:old:" := row [x00; x0c; x15] ]} |}.

Definition provider (default : list Z) : @TerraformProvider noopencryptor.NoopEncryptor (list Z) :=
  {| DefaultTfVersion := default; provider_store := plainStore |}.

Definition CheckUpgradeAvailable (default : list Z) (deploymentGUID : string) : option error :=
  CheckUpgradeAvailable zeroWorkspace json_Unmarshal StateVersion (provider default) deploymentGUID.

(** The store of the tests, with a blob its encryptor refuses. *)
Definition fakeStore : @Storage storagefakes.FakeEncryptor :=
  {| encryptor := storagefakes.TestEncryptor;
     terraformDeployments :=
       {[ "fake-id-1" := row (list_byte_of_string "cannot-be-decrypted") ]} |}.

End Sample.

(** ** A small broker to run [Deprovision] on

    One service, whose provider answers every deprovision request the same
    way, and one instance, ["inst-1"], with its request parameters. *)
Module SampleBroker.

Definition provider (answer : result (option string)) : @ServiceProvider unit string :=
  {| sp_CheckUpgradeAvailable := fun _ => None;
     sp_Deprovision := fun _ _ _ _ => answer |}.

Definition definition : @ServiceDefinition string unit string string :=
  {| GetPlanByID := fun planID => Ok planID;
     ProvisionVariables := fun _ pd _ _ => Ok (RequestParams pd) |}.

Definition broker (answer : result (option string)) : @ServiceBroker string unit unit string string :=
  {| getDefinitionAndProvider := fun _ => Ok (definition, provider answer) |}.

Definition instance : ServiceInstanceDetails :=
  {| GUID := "inst-1";
     ServiceGUID := "service-1";
     PlanGUID := "plan-1";
     OperationType := "provision";
     OperationGUID := "op-0" |}.

Definition details : DeprovisionDetails :=
  {| PlanID := "plan-1"; ServiceID := "service-1"; Force := false |}.

Definition db (failing : StoreCall -> option error) : MemStore string :=
  {| instanceRows := {[ "inst-1" := instance ]};
     requestRows := {[ "inst-1" := "params" ]};
     failing := failing;
     calls := [] |}.

Definition healthy : StoreCall -> option error := fun _ => None.

(** A database that refuses to delete request parameters. *)
Definition refusesRequestDelete : StoreCall -> option error :=
  fun c =>
    match c with
    | CallDeleteProvisionRequestDetails _ => Some (errors_New "database is locked")
    | _ => None
    end.

Definition world (failing : StoreCall -> option error) : World (MemStore string) string :=
  {| store := db failing; logged := [] |}.

Definition Deprovision (answer : result (option string)) (instanceID : string)
    (clientSupportsAsync : bool) (failing : StoreCall -> option error) :=
  Deprovision (fun _ : unit => "correlation-1") (fun _ : unit => tt)
              (fun id => "tf:" ++ id ++ ":") "deprovision"
              (broker answer) tt instanceID details clientSupportsAsync (world failing).

End SampleBroker.

(** ** A small invoker to run on the recording workspace *)
Module SampleInvoker.

Definition invoker : @Terraform012Invoker unit :=
  NewTerraform012Invoker tt "/plugins".

Definition fresh : FakeWorkspace :=
  {| ExecuteReturns := ({| StdOut := "ok"; StdErr := EmptyString |}, None);
     ExecuteArgsForCall := [] |}.

Definition resources : gmap string string :=
  {[ "aws_instance.web" := "i-0abc"; "aws_s3_bucket.logs" := "logs-bucket" ]}.

(** One order the loop may meet the two pairs in. *)
Definition ranged : list (string * string) :=
  [("aws_instance.web", "i-0abc"); ("aws_s3_bucket.logs", "logs-bucket")].

End SampleInvoker.

(** ** A small instance of the builder's collaborators

    Values are strings.  A template of the form [${name}] evaluates to the
    value of [name], any other template to itself; casts leave the value
    alone; a message of the form [key=value] stands in for a JSON object of
    one key. *)
Module SampleContext.

Definition Eval (template : string) (seen : gmap string string) : result string :=
  match template with
  | String "$" (String "{" rest) =>
      let name := substring 0 (String.length rest - 1) rest in
      match seen !! name with
      | Some v => Ok v
      | None => Err (errors_New "unknown variable accessed")
      end
  | _ => Ok template
  end.

Definition castTo (v : string) (_ : string) : result string := Ok v.

Fixpoint splitAt (sep : ascii) (s : string) : option (string * string) :=
  match s with
  | EmptyString => None
  | String c rest =>
      if Ascii.eqb c sep then Some (EmptyString, rest)
      else match splitAt sep rest with
           | Some (l, r) => Some (String c l, r)
           | None => None
           end
  end.

Definition json_Unmarshal_map (raw : bytes) : result (gmap string string) :=
  match splitAt "=" (string_of_list_byte raw) with
  | Some (key, v) => Ok {[ key := v ]}
  | None => Err (errors_New "invalid character")
  end.

Definition asString (v : string) : option string := Some v.

Definition chain (calls : list (@BuilderCall string)) : @ContextBuilder string :=
  chain Eval castTo json_Unmarshal_map asString calls Builder.

(** The spec's scenario, and the one of the tests. *)
Definition scenario (out : string) : list (@BuilderCall string) :=
  [CallSetEvalConstants {[ "PI" := "3.14" ]};
   CallMergeMap {[ "PI" := "3.2" ]};
   CallMergeEvalResult out "${PI}" "string"].

End SampleContext.

(** ** More of the store's codec *)

Section Encode.
Context {E : Type} `{Encryptor E}.
(** [json.Marshal] of a value of type [A]. *)
Context {A : Type} (json_Marshal : A -> result bytes).

Definition encodeJSON (s : E) (a : A) : result bytes :=
  match json_Marshal a with
  | Err err => Err (Errorf "JSON marshal error: %w" [AError err])
  | Ok b => encodeBytes s b
  end.

End Encode.

(** ** The Terraform provider behind the broker's provider interface *)

Section ProviderAdapter.
Context {E : Type} `{Encryptor E}.
Context {Version : Type} `{VersionOrder Version}.
Context {Workspace Ctx VarContext : Type}.
Context (zeroWorkspace : Workspace).
Context (json_Unmarshal : bytes -> Workspace -> Workspace * option error).
Context (StateVersion : Workspace -> result Version).

(** [*TerraformProvider] as a [ServiceProvider]: its [CheckUpgradeAvailable]
    is the one above; its [Deprovision] is declared outside the sources and
    taken as given. *)
Definition asServiceProvider (provider : @TerraformProvider E Version)
    (deprovision : Ctx -> string -> DeprovisionDetails -> VarContext -> result (option string))
    : @ServiceProvider Ctx VarContext :=
  {| sp_CheckUpgradeAvailable := CheckUpgradeAvailable zeroWorkspace json_Unmarshal StateVersion provider;
     sp_Deprovision := deprovision |}.

End ProviderAdapter.

(** ** More databases and brokers to run [Deprovision] on *)
Module SampleFaults.

(** A database that refuses to delete instance rows. *)
Definition refusesInstanceDelete : StoreCall -> option error :=
  fun c =>
    match c with
    | CallDeleteServiceInstanceDetails _ => Some (errors_New "database is locked")
    | _ => None
    end.

(** A database that refuses to save instance rows. *)
Definition refusesStore : StoreCall -> option error :=
  fun c =>
    match c with
    | CallStoreServiceInstanceDetails _ => Some (errors_New "database is locked")
    | _ => None
    end.

(** A broker whose provider is the Terraform provider of [Sample], with the
    engine at [default]; the instances ["new"] and ["old"] have the
    deployments ["tf:new:"] and ["tf:old:"]. *)
Definition provider (default : list Z) : @ServiceProvider unit string :=
  asServiceProvider Sample.zeroWorkspace Sample.json_Unmarshal Sample.StateVersion
                    (Sample.provider default) (fun _ _ _ _ => Ok None).

Definition broker (default : list Z) : @ServiceBroker string unit unit string string :=
  {| getDefinitionAndProvider := fun _ => Ok (SampleBroker.definition, provider default) |}.

Definition row (id : string) : ServiceInstanceDetails :=
  {| GUID := id;
     ServiceGUID := "service-1";
     PlanGUID := "plan-1";
     OperationType := "provision";
     OperationGUID := "op-0" |}.

Definition world : World (MemStore string) string :=
  {| store := {| instanceRows := {[ "new" := row "new"; "old" := row "old" ]};
                 requestRows := {[ "new" := "params-new"; "old" := "params-old" ]};
                 failing := SampleBroker.healthy;
                 calls := [] |};
     logged := [] |}.

Definition Deprovision (default : list Z) (instanceID : string) :=
  Deprovision (fun _ : unit => "correlation-1") (fun _ : unit => tt)
              (fun id => "tf:" ++ id ++ ":") "deprovision"
              (broker default) tt instanceID SampleBroker.details true world.

(** [json.Marshal] to go with [Sample.json_Unmarshal]: one byte a segment. *)
Definition json_Marshal (w : list Z) : result bytes :=
  Ok (map (fun z => default x00 (Byte.of_N (Z.to_N z))) w).

End SampleFaults.

(** ** Catalog lookups of the test framework (package brokerpaktestframework) *)
Module brokerpaktestframework.

(** [domain.ServicePlan], [domain.Service] and [apiresponses.CatalogResponse]
    of the brokerapi library, by the fields the lookups read. *)
Record ServicePlan : Type := {
  plan_ID : string;
  plan_Name : string
}.

Record Service : Type := {
  service_ID : string;
  service_Name : string;
  Plans : list ServicePlan
}.

Record CatalogResponse : Type := {
  Services : list Service
}.

(** The zero value [domain.Service{}]. *)
Definition zeroService : Service :=
  {| service_ID := EmptyString; service_Name := EmptyString; Plans := [] |}.

Definition FindService (catalog : CatalogResponse) (s : string) : Service :=
  (fix loop (services : list Service) : Service :=
     match services with
     | [] => zeroService
     | service :: rest =>
         if String.eqb (service_Name service) s then service else loop rest
     end) (Services catalog).

Definition FindServicePlanGUIDs (catalog : CatalogResponse) (serviceName planName : string)
    : string * string :=
  let service := FindService catalog serviceName in
  (fix loop (plans : list ServicePlan) : string * string :=
     match plans with
     | [] => (EmptyString, EmptyString)
     | plan :: rest =>
         if String.eqb (plan_Name plan) planName then (service_ID service, plan_ID plan)
         else loop rest
     end) (Plans service).

End brokerpaktestframework.

(** ** Reading a brokerpak (package reader) *)
Module reader.

Section Reader.
(** [platform.CurrentPlatform()] and [path.Join], from outside the sources. *)
Context (plat_Os plat_Arch : string).
Context (path_Join : list string -> string).

(** [BrokerPakReader], by what the lookups use of its zip contents: the
    names of the files [contents.List()] yields, in order. *)
Record BrokerPakReader : Type := {
  contents_List : list string
}.

Definition findFileInZip (pak : BrokerPakReader) (name : string) : result string :=
  let prefix := path_Join ["bin"; plat_Os; plat_Arch; name] in
  let found :=
    fold_left (fun found f => if String.prefix prefix f then (found ++ [f])%list else found)
              (contents_List pak) [] in
  match found with
  | [f] => Ok f
  | [] => Err (Errorf "file with prefix %q not found in zip" [AString prefix])
  | _ => Err (Errorf "multiple files found with prefix %q: %s"
                     [AString prefix; AString (String.concat ", " found)])
  end.

Definition fileExistsInZip (pak : BrokerPakReader) (path : string) : bool :=
  (fix loop (files : list string) : bool :=
     match files with
     | [] => false
     | f :: rest => if String.eqb f path then true else loop rest
     end) (contents_List pak).

End Reader.

End reader.

(** ** Registering brokerpaks (package brokerpak) *)
Module brokerpak.

Section Registrar.
(** Declared outside the sources: what else a service definition holds, the
    executor, the broker's service definition that [ToService] makes, the
    values of a variable context and [cast.ToString]. *)
Context {Other Executor BrokerDefinition V : Type}.

(** [tf.TfServiceDefinitionV1], by the two fields [toDefinitions] uses. *)
Record TfServiceDefinitionV1 : Type := {
  Id : string;
  svc_Name : string;
  svc_Other : Other
}.

Context (ToService : TfServiceDefinitionV1 -> Executor -> result BrokerDefinition).
Context (cast_ToString : V -> string).

(** [BrokerpakSourceConfig], by what [toDefinitions] reads of it: the
    excluded service ids ([ExcludedServicesSlice()]) and the prefix. *)
Record BrokerpakSourceConfig : Type := {
  ExcludedServicesSlice : list string;
  ServicePrefix : string
}.

(** [utils.NewStringSet] and [Contains]. *)
Definition NewStringSet (items : list string) : gset string := list_to_set items.

Definition Contains (set : gset string) (item : string) : bool := bool_decide (item ∈ set).

Definition toDefinitions (services : list TfServiceDefinitionV1)
    (config : BrokerpakSourceConfig) (executor : Executor) : result (list BrokerDefinition) :=
  let toIgnore := NewStringSet (ExcludedServicesSlice config) in
  (fix loop (services : list TfServiceDefinitionV1) (out : list BrokerDefinition)
     : result (list BrokerDefinition) :=
     match services with
     | [] => Ok out
     | svc :: rest =>
         if Contains toIgnore (Id svc) then loop rest out
         else
           let svc := {| Id := Id svc;
                         svc_Name := ServicePrefix config ++ svc_Name svc;
                         svc_Other := svc_Other svc |} in
           match ToService svc executor with
           | Err err => Err err
           | Ok bs => loop rest (out ++ [bs])%list
           end
     end) services [].

(** [manifest.Parameter], by its name. *)
Record ManifestParameter : Type := {
  param_Name : string;
  param_Description : string
}.

(** [vc] is given by its map, [vc.ToMap()]. *)
Definition resolveParameters (params : list ManifestParameter) (vc : gmap string V) : gmap string string :=
  let context := vc in
  fold_left
    (fun out p =>
       match context !! param_Name p with
       | Some val => <[param_Name p := cast_ToString val]> out
       | None => out
       end)
    params ∅.

End Registrar.

End brokerpak.

(** The services [toDefinitions] is to convert: those whose id is not
    excluded, in their order, their names prefixed. *)
Definition converted {Other : Type} (services : list (@brokerpak.TfServiceDefinitionV1 Other))
    (config : brokerpak.BrokerpakSourceConfig) : list (@brokerpak.TfServiceDefinitionV1 Other) :=
  map (fun svc => {| brokerpak.Id := brokerpak.Id svc;
                     brokerpak.svc_Name := brokerpak.ServicePrefix config ++ brokerpak.svc_Name svc;
                     brokerpak.svc_Other := brokerpak.svc_Other svc |})
      (List.filter (fun svc => negb (bool_decide (brokerpak.Id svc ∈ brokerpak.ExcludedServicesSlice config)))
                   services).

(** ** Go's strings, for one-byte separators *)

(** [strings.Split(s, sep)] for a separator of one byte. *)
Fixpoint strings_Split (s : string) (sep : ascii) : list string :=
  match s with
  | EmptyString => [EmptyString]
  | String c rest =>
      if Ascii.eqb c sep then EmptyString :: strings_Split rest sep
      else match strings_Split rest sep with
           | first :: more => String c first :: more
           | [] => [String c EmptyString]
           end
  end.

Definition strings_Join (elems : list string) (sep : string) : string :=
  String.concat sep elems.

Definition strings_HasPrefix (s prefix : string) : bool := String.prefix prefix s.

Definition strings_HasSuffix (s suffix : string) : bool :=
  (String.length suffix <=? String.length s)%nat
  && String.eqb (substring (String.length s - String.length suffix) (String.length suffix) s)
                suffix.

Definition newline : string := String (ascii_of_byte x0a) EmptyString.

(** [sort.Slice] of strings by [<]: the sorted permutation, which is the same
    whatever the algorithm, equal strings being the same string. *)
Definition stringLe (a b : string) : Prop := String.leb a b = true.

#[global] Instance stringLe_dec (a b : string) : Decision (stringLe a b).
Proof. unfold stringLe. apply _. Defined.

Definition sortStrings (l : list string) : list string := merge_sort stringLe l.

(** ** Field errors (package validation) *)
Module validation.

Definition CurrentField : string := EmptyString.

(** [errors] holds values, not pointers; a [*FieldError] is an [option]. *)
#[local] Unset Elimination Schemes.
Inductive FieldError : Type :=
| Build_FieldError (Message : string) (Paths : list string) (Details : string)
                   (errors : list FieldError).
#[local] Set Elimination Schemes.

Definition Message (e : FieldError) : string :=
  match e with Build_FieldError m _ _ _ => m end.
Definition Paths (e : FieldError) : list string :=
  match e with Build_FieldError _ p _ _ => p end.
Definition Details (e : FieldError) : string :=
  match e with Build_FieldError _ _ d _ => d end.
Definition errors (e : FieldError) : list FieldError :=
  match e with Build_FieldError _ _ _ es => es end.

(** The zero value [FieldError{}]. *)
Definition zero : FieldError := Build_FieldError EmptyString [] EmptyString [].

Definition isEmpty (e : option FieldError) : bool :=
  match e with
  | None => true
  | Some e =>
      String.eqb (Message e) EmptyString && String.eqb (Details e) EmptyString
      && Nat.eqb (length (errors e)) 0 && Nat.eqb (length (Paths e)) 0
  end.

(** A copy shares nothing with the original; as a value it is the same. *)
Definition DeepCopy (e : option FieldError) : option FieldError := e.

Definition Also (e : option FieldError) (errs : list (option FieldError)) : option FieldError :=
  let newErr :=
    if negb (isEmpty e) then default zero (DeepCopy e) else zero in
  (* and then collect the passed in errors *)
  let newErr :=
    fold_left
      (fun newErr e =>
         match e with
         | Some e' =>
             if negb (isEmpty e)
             then Build_FieldError (Message newErr) (Paths newErr) (Details newErr)
                                   (errors newErr ++ [e'])
             else newErr
         | None => newErr
         end)
      errs newErr in
  if isEmpty (Some newErr) then None else Some newErr.

(** The loop of [Also], on its own: collect the non-empty errors of [errs]
    under [newErr]. *)
Definition collect (newErr : FieldError) (errs : list (option FieldError)) : FieldError :=
  fold_left
    (fun newErr e =>
       match e with
       | Some e' =>
           if negb (isEmpty e)
           then Build_FieldError (Message newErr) (Paths newErr) (Details newErr)
                                 (errors newErr ++ [e'])
           else newErr
       | None => newErr
       end)
    errs newErr.

Definition asIndex (index : Z) : string :=
  "[" ++ NilZero.string_of_int (Z.to_int index) ++ "]".

Definition isIndex (part : string) : bool :=
  strings_HasPrefix part "[" && strings_HasSuffix part "]".

Definition asKey (key : string) : string := "[" ++ key ++ "]".

(** A component of a path that holds no dot. *)
Definition dotFree (part : string) : bool :=
  forallb (fun c => negb (Ascii.eqb c ".")) (list_ascii_of_string part).

(** The step of [flatten] on one dot-free piece. *)
Definition flattenStep (newPath : list string) (p : string) : list string :=
  if String.eqb p CurrentField then newPath
  else if (0 <? length newPath)%nat && isIndex p
       then alter (fun last => last ++ p) (length newPath - 1) newPath
       else (newPath ++ [p])%list.

(** The state of [flatten]'s loop after the components [path], from
    [newPath]. *)
Definition process (path newPath : list string) : list string :=
  fold_left (fun newPath part => fold_left flattenStep (strings_Split part ".") newPath)
            path newPath.

Definition flatten (path : list string) : string :=
  let newPath :=
    fold_left
      (fun newPath part =>
         fold_left
           (fun newPath p =>
              if String.eqb p CurrentField then newPath
              else if (0 <? length newPath)%nat && isIndex p
                   then alter (fun last => last ++ p) (length newPath - 1) newPath
                   else (newPath ++ [p])%list)
           (strings_Split part ".") newPath)
      path [] in
  strings_Join newPath ".".

(** [ViaField] on a value; the pointer version is below. *)
Fixpoint viaField (prefix : list string) (e : FieldError) : option FieldError :=
  (* Copy over message and details, paths will be updated and errors come
     along using .Also(). *)
  let newPaths := map (fun oldPath => flatten (prefix ++ [oldPath])%list) (Paths e) in
  let newErr := Some (Build_FieldError (Message e) newPaths (Details e) []) in
  fold_left (fun newErr e => Also newErr [viaField prefix e]) (errors e) newErr.

Definition ViaField (e : option FieldError) (prefix : list string) : option FieldError :=
  match e with
  | None => None
  | Some e => viaField prefix e
  end.

Definition ViaIndex (e : option FieldError) (index : Z) : option FieldError :=
  ViaField e [asIndex index].

Definition ViaFieldIndex (e : option FieldError) (field : string) (index : Z) : option FieldError :=
  ViaField (ViaIndex e index) [field].

Definition ViaKey (e : option FieldError) (key : string) : option FieldError :=
  ViaField e [asKey key].

Definition ViaFieldKey (e : option FieldError) (field key : string) : option FieldError :=
  ViaField (ViaKey e key) [field].

(** [normalized] on a value; the pointer version is below. *)
Fixpoint normalizedValue (e : FieldError) : list FieldError :=
  ((if negb (String.eqb (Message e) EmptyString)
    then [Build_FieldError (Message e) (Paths e) (Details e) []]
    else [])
   ++ flat_map normalizedValue (errors e))%list.

Definition normalized (e : option FieldError) : list FieldError :=
  match e with
  | None => []
  | Some e => normalizedValue e
  end.

Definition containsString (slice : list string) (s : string) : bool :=
  (fix loop (slice : list string) : bool :=
     match slice with
     | [] => false
     | item :: rest => if String.eqb item s then true else loop rest
     end) slice.

Definition mergePaths (a b : list string) : list string :=
  fold_left
    (fun newPaths bi => if negb (containsString newPaths bi) then (newPaths ++ [bi])%list else newPaths)
    b a.

Definition key (err : FieldError) : string := Message err ++ "-" ++ Details err.

(** The map [merge] builds: under each key the first error that has it, its
    paths merged with those of the later errors of the same key. *)
Definition grouped (errs : list FieldError) : gmap string FieldError :=
  fold_left
    (fun m e =>
       let k := key e in
       match m !! k with
       | Some v =>
           <[k := Build_FieldError (Message v) (mergePaths (Paths v) (Paths e)) (Details v)
                                   (errors v)]> m
       | None => <[k := e]> m
       end)
    errs ∅.

(** One step of the loop that builds the map. *)
Definition groupStep (m : gmap string FieldError) (e : FieldError) : gmap string FieldError :=
  let k := key e in
  match m !! k with
  | Some v =>
      <[k := Build_FieldError (Message v) (mergePaths (Paths v) (Paths e)) (Details v)
                              (errors v)]> m
  | None => <[k := e]> m
  end.

(** An entry of the map as [merge] returns it: its paths sorted. *)
Definition finish (kv : string * FieldError) : FieldError :=
  Build_FieldError (Message kv.2) (sortStrings (Paths kv.2)) (Details kv.2) (errors kv.2).

(** The order of [merge]'s final [sort.Slice]: by message, then by details. *)
Definition fieldErrorLe (a b : FieldError) : Prop :=
  if String.eqb (Message a) (Message b)
  then String.leb (Details a) (Details b) = true
  else String.leb (Message a) (Message b) = true.

#[global] Instance fieldErrorLe_dec (a b : FieldError) : Decision (fieldErrorLe a b).
Proof. unfold fieldErrorLe. destruct (String.eqb _ _); apply _. Defined.

(** [merge], the map being ranged over in the order [ranged]. *)
Definition mergeRanged (ranged : list (string * FieldError)) : list FieldError :=
  let newErrs :=
    map (fun kv => Build_FieldError (Message kv.2) (sortStrings (Paths kv.2)) (Details kv.2)
                                    (errors kv.2))
        ranged in
  merge_sort fieldErrorLe newErrs.

Definition merge (errs : list FieldError) : list FieldError :=
  mergeRanged (map_to_list (grouped errs)).

Definition Error (e : option FieldError) : string :=
  let normedErrors := merge (normalized e) in
  let errs :=
    map (fun e =>
           if String.eqb (Details e) EmptyString
           then Message e ++ ": " ++ strings_Join (Paths e) ", "
           else Message e ++ ": " ++ strings_Join (Paths e) ", " ++ newline ++ Details e)
        normedErrors in
  strings_Join errs newline.

(** A leaf as [ViaField] leaves it: its paths under the prefix. *)
Definition prefixLeaf (prefix : list string) (leaf : FieldError) : FieldError :=
  Build_FieldError (Message leaf)
                   (map (fun oldPath => flatten (prefix ++ [oldPath])%list) (Paths leaf))
                   (Details leaf) [].

(** The [less] of [merge]'s final sort. *)
Definition fieldErrorLt (a b : FieldError) : Prop :=
  fieldErrorLe a b /\ ~ fieldErrorLe b a.

(** The line of [Error] for one merged error. *)
Definition errorLine (e : FieldError) : string :=
  if String.eqb (Details e) EmptyString
  then Message e ++ ": " ++ strings_Join (Paths e) ", "
  else Message e ++ ": " ++ strings_Join (Paths e) ", " ++ newline ++ Details e.

Definition ErrMissingField (fieldPaths : list string) : option FieldError :=
  Some (Build_FieldError "missing field(s)" fieldPaths EmptyString []).

Definition ErrDisallowedFields (fieldPaths : list string) : option FieldError :=
  Some (Build_FieldError "must not set the field(s)" fieldPaths EmptyString []).

Definition ErrDisallowedUpdateDeprecatedFields (fieldPaths : list string) : option FieldError :=
  Some (Build_FieldError "must not update deprecated field(s)" fieldPaths EmptyString []).

Definition ErrMissingOneOf (fieldPaths : list string) : option FieldError :=
  Some (Build_FieldError "expected exactly one, got neither" fieldPaths EmptyString []).

Definition ErrMultipleOneOf (fieldPaths : list string) : option FieldError :=
  Some (Build_FieldError "expected exactly one, got both" fieldPaths EmptyString []).

Definition ErrDuplicate (value : string) (fieldPaths : list string) : option FieldError :=
  Some (Build_FieldError ("duplicated value, must be unique: " ++ value) fieldPaths
                         EmptyString []).

End validation.

(** ** Field errors to run the definitions on *)
Module SampleErrors.

(** Two fields missing, reported one after the other, and one choice made
    twice. *)
Definition reported : list validation.FieldError :=
  validation.normalized
    (validation.Also (validation.ErrMissingField ["name"])
                     [validation.ErrMultipleOneOf ["x"];
                      validation.ErrMissingField ["default"; "name"]]).

(** The entries of the map in the order other than the one it lists them
    in. *)
Definition ranged : list (string * validation.FieldError) :=
  reverse (map_to_list (validation.grouped reported)).

End SampleErrors.

(** ** Text helpers (package utils) *)
Module utils.

Definition EnvironmentVarPrefix : string := "gsb".

(** [strings.NewReplacer(".", "_", "-", "_").Replace]: every dot and every
    dash becomes an underscore. *)
Definition PropertyToEnvReplacer_Replace (s : string) : string :=
  string_of_list_ascii
    (map (fun c => if Ascii.eqb c "." then "_"%char
                   else if Ascii.eqb c "-" then "_"%char else c)
         (list_ascii_of_string s)).

Section Env.
(** [strings.ToUpper], of the standard library. *)
Context (strings_ToUpper : string -> string).

Definition PropertyToEnvUnprefixed (propertyName : string) : string :=
  PropertyToEnvReplacer_Replace (strings_ToUpper propertyName).

Definition PropertyToEnv (propertyName : string) : string :=
  PropertyToEnvUnprefixed (EnvironmentVarPrefix ++ "." ++ propertyName).

End Env.

Definition Indent (text by_ : string) : string :=
  let lines := strings_Split text (ascii_of_byte x0a) in
  let lines := map (fun line => by_ ++ line) lines in
  strings_Join lines newline.

End utils.

(** A string that does not hold the byte [sep]. *)
Definition sepFree (sep : ascii) (s : string) : bool :=
  forallb (fun c => negb (Ascii.eqb c sep)) (list_ascii_of_string s).

(** * Properties *)

(** ** The no-op encryptor *)

(** C7: for every byte sequence [w], the empty one included, the no-op
    encryptor's [Encrypt] and [Decrypt] both return [w] itself and no error,
    so that decrypting what was encrypted gives [w] back. *)
Theorem noop_encryptor_identity_roundtrip (w : bytes) :
  Encrypt noopencryptor.New w = Ok w
  /\ Decrypt noopencryptor.New w = Ok w
  /\ roundtrip noopencryptor.New w = Ok w
  /\ roundtrip noopencryptor.New [] = Ok [].
Proof. repeat split. Qed.

(** The round trip is a law of the capability, not of every implementation
    of its interface: the encryptor of the store's tests wraps on [Encrypt]
    and leaves alone on [Decrypt]. *)
Example fake_encryptor_no_roundtrip :
  roundtrip storagefakes.TestEncryptor [] = Ok (list_byte_of_string ("{" ++ dquote ++ "encrypted" ++ dquote ++ ":}")).
Proof. reflexivity. Qed.

(** ** The codec *)

Section CodecProperties.
Context {E : Type} `{Encryptor E}.
Context {R : Type} (json_Unmarshal : bytes -> R -> R * option error).

Lemma decodeBytes_Ok (s : E) (a d : bytes) :
  Decrypt s a = Ok d -> decodeBytes s a = Ok d.
Proof. intros Hd. unfold decodeBytes. now rewrite Hd. Qed.

Lemma decodeBytes_Err (s : E) (a : bytes) (cause : error) :
  Decrypt s a = Err cause ->
  decodeBytes s a = Err (Errorf "decryption error: %w" [AError cause]).
Proof. intros Hd. unfold decodeBytes. now rewrite Hd. Qed.

Lemma decodeJSON_decrypt_Err (s : E) (a : bytes) (receiver : R) (cause : error) :
  Decrypt s a = Err cause ->
  decodeJSON json_Unmarshal s a receiver
  = (receiver, Some (Errorf "decryption error: %w" [AError cause])).
Proof.
  intros Hd. unfold decodeJSON. now rewrite (decodeBytes_Err _ _ _ Hd).
Qed.

(** C10: whatever the receiver holds, [decodeJSON] on a blob that decrypts to
    the empty byte sequence reports no error and leaves the receiver as it
    was; [json.Unmarshal] is not consulted.  A receiver at its zero value
    stays at its zero value. *)
Theorem decodeJSON_empty_plaintext (s : E) (a b : bytes) (receiver : R) :
  Decrypt s a = Ok b ->
  length b = 0 ->
  decodeJSON json_Unmarshal s a receiver = (receiver, None).
Proof.
  intros Hd Hlen. unfold decodeJSON.
  rewrite (decodeBytes_Ok _ _ _ Hd), Hlen. reflexivity.
Qed.

End CodecProperties.

Lemma decodeJSON_empty_plaintext_witness :
  Decrypt noopencryptor.New [] = Ok []
  /\ length ([] : bytes) = 0
  /\ decodeJSON (fun _ (r : nat) => (S r, Some ErrAsyncRequired)) noopencryptor.New [] 7
     = (7, None).
Proof.
  split; [reflexivity | split; [reflexivity |]].
  apply (decodeJSON_empty_plaintext _ noopencryptor.New [] []); reflexivity.
Defined.

(** ** The deployment store *)

Section DeploymentProperties.
Context {E : Type} `{Encryptor E}.
Context {Version : Type} `{VersionOrder Version}.
Context {Workspace : Type}.
Context (zeroWorkspace : Workspace).
Context (json_Unmarshal : bytes -> Workspace -> Workspace * option error).
Context (StateVersion : Workspace -> result Version).

Lemma NotFoundError_not_DecodingError (id id' : string) (cause : error) :
  DecodingError id cause <> NotFoundError id'.
Proof. unfold DecodingError, NotFoundError. discriminate. Qed.

Lemma DecodingError_wraps (id : string) (cause : error) :
  Unwrap (DecodingError id cause) = Some cause.
Proof. reflexivity. Qed.

Lemma DecodingError_Is_decryption_cause (id : string) (cause : error) :
  errors_Is (DecodingError id (Errorf "decryption error: %w" [AError cause])) cause.
Proof.
  eapply Is_unwrap; [apply DecodingError_wraps |].
  eapply Is_unwrap; [reflexivity | apply Is_here].
Qed.

(** C6: [GetTerraformDeployment] on an id whose blob fails decryption returns
    the decoding error, which wraps the decryption cause; on an absent id it
    returns the not-found error; and whatever the two stores, ids and blobs,
    the two errors are different values, told apart by their kind, the
    not-found error wrapping nothing. *)
Theorem GetTerraformDeployment_decoding_vs_not_found
    (s s' : @Storage E) (id id' : string) (row : TerraformDeploymentRow) (cause : error) :
  terraformDeployments s !! id = Some row ->
  Decrypt (encryptor s) (row_Workspace row) = Err cause ->
  terraformDeployments s' !! id' = None ->
  let decoding := DecodingError id (Errorf "decryption error: %w" [AError cause]) in
  GetTerraformDeployment zeroWorkspace json_Unmarshal s id = Err decoding
  /\ errors_Is decoding cause
  /\ GetTerraformDeployment zeroWorkspace json_Unmarshal s' id' = Err (NotFoundError id')
  /\ decoding <> NotFoundError id'
  /\ isDecodingError decoding = true /\ isNotFoundError decoding = false
  /\ isNotFoundError (NotFoundError id') = true /\ isDecodingError (NotFoundError id') = false
  /\ Unwrap (NotFoundError id') = None.
Proof.
  intros Hrow Hdec Habsent decoding.
  repeat split.
  - unfold GetTerraformDeployment. rewrite Hrow.
    now rewrite (decodeJSON_decrypt_Err _ _ _ _ _ Hdec).
  - apply DecodingError_Is_decryption_cause.
  - unfold GetTerraformDeployment. now rewrite Habsent.
  - apply NotFoundError_not_DecodingError.
Qed.

(** A row whose blob decrypts to nothing is read back with the workspace at
    its zero value and no error. *)
Lemma GetTerraformDeployment_empty_blob
    (s : @Storage E) (id : string) (row : TerraformDeploymentRow) :
  terraformDeployments s !! id = Some row ->
  Decrypt (encryptor s) (row_Workspace row) = Ok [] ->
  GetTerraformDeployment zeroWorkspace json_Unmarshal s id
  = Ok {| ID := id;
          TFWorkspace := zeroWorkspace;
          LastOperationType := row_LastOperationType row;
          LastOperationState := row_LastOperationState row;
          LastOperationMessage := row_LastOperationMessage row |}.
Proof.
  intros Hrow Hdec. unfold GetTerraformDeployment. rewrite Hrow.
  unfold decodeJSON. now rewrite (decodeBytes_Ok _ _ _ Hdec).
Qed.

(** ** The version check *)

Lemma checkTerraformVersion_spec (provider : @TerraformProvider E Version)
    (workspace : Workspace) (v : Version) :
  StateVersion workspace = Ok v ->
  checkTerraformVersion StateVersion provider workspace
  = if LessThan v (DefaultTfVersion provider) then Some ErrNewerVersion else None.
Proof. intros Hv. unfold checkTerraformVersion. now rewrite Hv. Qed.

(** C1, as amended: when the deployment and the version its state records
    can be read, the check before deprovisioning fails, with the error that
    asks for an upgrade, exactly when the recorded version is strictly lower
    than the configured default, and succeeds exactly when it is equal or
    greater. *)
Theorem CheckUpgradeAvailable_fails_iff_state_older
    (provider : @TerraformProvider E Version) (deploymentGUID : string)
    (deployment : @TerraformDeployment Workspace) (v : Version) :
  GetTerraformDeployment zeroWorkspace json_Unmarshal (provider_store provider) deploymentGUID
    = Ok deployment ->
  StateVersion (TFWorkspace deployment) = Ok v ->
  let check := CheckUpgradeAvailable zeroWorkspace json_Unmarshal StateVersion provider deploymentGUID in
  check = checkTerraformVersion StateVersion provider (TFWorkspace deployment)
  /\ (check = Some ErrNewerVersion <-> (Compare v (DefaultTfVersion provider) < 0)%Z)
  /\ (check = None <-> (Compare v (DefaultTfVersion provider) >= 0)%Z)
  /\ (check = None <-> Equal v (DefaultTfVersion provider) = true
                       \/ GreaterThan v (DefaultTfVersion provider) = true).
Proof.
  intros Hget Hv check.
  assert (Hcheck : check = checkTerraformVersion StateVersion provider (TFWorkspace deployment)).
  { unfold check, CheckUpgradeAvailable. rewrite Hget.
    now destruct (checkTerraformVersion _ _ _). }
  split; [exact Hcheck |].
  rewrite Hcheck, (checkTerraformVersion_spec _ _ _ Hv).
  unfold LessThan, Equal, GreaterThan, ErrNewerVersion.
  destruct (Z.ltb_spec (Compare v (DefaultTfVersion provider)) 0);
    repeat split; intros; try discriminate; lia.
Qed.

End DeploymentProperties.

(** The tests' store: ["fake-id-1"] cannot be decrypted, ["not-there"] is
    absent. *)
Lemma GetTerraformDeployment_decoding_vs_not_found_witness :
  GetTerraformDeployment Sample.zeroWorkspace Sample.json_Unmarshal Sample.fakeStore "fake-id-1"
    = Err (DecodingError "fake-id-1"
             (Errorf "decryption error: %w" [AError (errors_New "fake decryption error")]))
  /\ GetTerraformDeployment Sample.zeroWorkspace Sample.json_Unmarshal Sample.fakeStore "not-there"
    = Err (NotFoundError "not-there").
Proof.
  pose proof (GetTerraformDeployment_decoding_vs_not_found
                Sample.zeroWorkspace Sample.json_Unmarshal
                Sample.fakeStore Sample.fakeStore "fake-id-1" "not-there"
                (Sample.row (list_byte_of_string "cannot-be-decrypted"))
                (errors_New "fake decryption error")) as W.
  destruct W as (Hdec & _ & Habs & _); [reflexivity | reflexivity | reflexivity |].
  split; [exact Hdec | exact Habs].
Defined.

(** With the default engine at 1.1.4, state of 1.1.4 passes the check and
    state of 0.12.21 does not. *)
Lemma CheckUpgradeAvailable_fails_iff_state_older_witness :
  Sample.CheckUpgradeAvailable [1; 1; 4]%Z "tf:new:" = None
  /\ (Sample.CheckUpgradeAvailable [1; 1; 4]%Z "tf:new:" = None <->
      (Compare [1; 1; 4]%Z [1; 1; 4]%Z >= 0)%Z).
Proof.
  pose proof (CheckUpgradeAvailable_fails_iff_state_older
                Sample.zeroWorkspace Sample.json_Unmarshal Sample.StateVersion
                (Sample.provider [1; 1; 4]%Z) "tf:new:"
                {| ID := "tf:new:"; TFWorkspace := [1; 1; 4]%Z;
                   LastOperationType := "update"; LastOperationState := "succeeded";
                   LastOperationMessage := "great" |}
                [1; 1; 4]%Z) as W.
  destruct W as (_ & _ & Hnone & _); [reflexivity | reflexivity |].
  split; [reflexivity | exact Hnone].
Defined.

(** C1, as the spec has it, fails on the code: state of 1.1.4 is strictly
    greater than a default of 0.12.21 and the check succeeds; state of
    0.12.21 is lower than a default of 1.1.4 and the check fails. *)
Lemma CheckUpgradeAvailable_newer_state_passes :
  GreaterThan [1; 1; 4]%Z [0; 12; 21]%Z = true
  /\ Sample.CheckUpgradeAvailable [0; 12; 21]%Z "tf:new:" = None
  /\ GreaterThan [0; 12; 21]%Z [1; 1; 4]%Z = false
  /\ Sample.CheckUpgradeAvailable [1; 1; 4]%Z "tf:old:" = Some ErrNewerVersion.
Proof. repeat split. Qed.

(** ** The broker's Deprovision *)

Local Open Scope list_scope.

Section BrokerProperties.
Context {JSONObject Ctx CorrelationID Identity ServicePlan VarContext : Type}.
Context (correlation_ID : Ctx -> CorrelationID).
Context (DecodeOriginatingIdentityHeader : Ctx -> Identity).
Context (generateTFInstanceID : string -> string).
Context (DeprovisionOperationType : string).

(** C4: whatever the instance id and the details, [Deprovision] called
    without async support returns the async-required error with an empty
    response; the store comes back as it was given, no method of it having
    been called, whether the instance exists or not.  Only the entry line
    has been logged. *)
Theorem Deprovision_requires_async {S : Type} `{BrokerStorage S JSONObject}
    (broker : @ServiceBroker JSONObject Ctx Identity ServicePlan VarContext)
    (ctx : Ctx) (instanceID : string) (details : DeprovisionDetails)
    (w : World S CorrelationID) :
  Deprovision correlation_ID DecodeOriginatingIdentityHeader generateTFInstanceID
              DeprovisionOperationType broker ctx instanceID details false w
  = (({| IsAsync := false; OperationData := EmptyString |}, Some ErrAsyncRequired),
     {| store := store w;
        logged := logged w ++ [{| log_action := "Deprovisioning";
                                  log_correlation := correlation_ID ctx;
                                  log_instance_id := instanceID;
                                  log_accepts_incomplete := false;
                                  log_details := details |}] |}).
Proof. reflexivity. Qed.

(** The same on the in-memory database: the record of calls is unchanged. *)
Lemma refused_Deprovision_calls_nothing
    (broker : @ServiceBroker JSONObject Ctx Identity ServicePlan VarContext)
    (ctx : Ctx) (instanceID : string) (details : DeprovisionDetails)
    (w : World (MemStore JSONObject) CorrelationID) :
  let '((_, err), w') :=
    Deprovision correlation_ID DecodeOriginatingIdentityHeader generateTFInstanceID
                DeprovisionOperationType broker ctx instanceID details false w in
  err = Some ErrAsyncRequired /\ calls (store w') = calls (store w).
Proof. cbn. split; reflexivity. Qed.

Ltac run_store :=
  unfold Deprovision, bind, onStore, Logger_Info, ret; cbn;
  unfold mem_Exists, mem_Get, mem_GetRequest, mem_DeleteInstance, mem_DeleteRequest,
         mem_StoreInstance; cbn.

(** C5: once the provider has answered, on a database that accepts the
    writes: a nil operation id makes [Deprovision] delete the instance row
    and the request parameters, in that order, and return success with an
    empty response; an operation id makes it store the instance row marked
    with the deprovision operation type and that id, and return it as an
    async response, with no delete issued and the row still there. *)
Theorem Deprovision_sync_deletes_async_marks
    (broker : @ServiceBroker JSONObject Ctx Identity ServicePlan VarContext)
    (ctx : Ctx) (instanceID : string) (details : DeprovisionDetails)
    (w : World (MemStore JSONObject) CorrelationID)
    (row : ServiceInstanceDetails) (parameters : JSONObject)
    (operationID : option string) :
  ProviderAnswered DecodeOriginatingIdentityHeader generateTFInstanceID
    broker ctx instanceID details (store w) row parameters operationID ->
  let run := Deprovision correlation_ID DecodeOriginatingIdentityHeader
               generateTFInstanceID DeprovisionOperationType
               broker ctx instanceID details true w in
  let reads := [CallExistsServiceInstanceDetails instanceID;
                CallGetServiceInstanceDetails instanceID;
                CallGetProvisionRequestDetails instanceID] in
  match operationID with
  | None =>
      failing (store w) (CallDeleteServiceInstanceDetails instanceID) = None ->
      failing (store w) (CallDeleteProvisionRequestDetails instanceID) = None ->
      fst run = ({| IsAsync := false; OperationData := EmptyString |}, None)
      /\ instanceRows (store (snd run)) !! instanceID = None
      /\ requestRows (store (snd run)) !! instanceID = None
      /\ calls (store (snd run))
         = calls (store w) ++ reads
           ++ [CallDeleteServiceInstanceDetails instanceID;
               CallDeleteProvisionRequestDetails instanceID]
  | Some id =>
      let marked := {| GUID := instanceID;
                       ServiceGUID := ServiceGUID row;
                       PlanGUID := PlanGUID row;
                       OperationType := DeprovisionOperationType;
                       OperationGUID := id |} in
      failing (store w) (CallStoreServiceInstanceDetails marked) = None ->
      fst run = ({| IsAsync := true; OperationData := id |}, None)
      /\ instanceRows (store (snd run)) !! instanceID = Some marked
      /\ requestRows (store (snd run)) = requestRows (store w)
      /\ calls (store (snd run))
         = calls (store w) ++ reads ++ [CallStoreServiceInstanceDetails marked]
  end.
Proof.
  intros [He Hrow Hg Hr Hp (sd & sp & plan & vars & Hdef & Hchk & Hplan & Hvars & Hdep)].
  destruct operationID as [id |]; cbn zeta.
  - intros Hst. run_store.
    rewrite He, Hrow; cbn. rewrite Hg, ?Hrow; cbn. rewrite Hdef, Hchk, Hplan; cbn.
    rewrite Hr, Hp, Hvars, Hdep; cbn. rewrite Hst; cbn.
    repeat split.
    + apply lookup_insert_eq.
    + now rewrite <- !app_assoc.
  - intros Hd1 Hd2. run_store.
    rewrite He, Hrow; cbn. rewrite Hg, ?Hrow; cbn. rewrite Hdef, Hchk, Hplan; cbn.
    rewrite Hr, Hp, Hvars, Hdep; cbn. rewrite Hd1; cbn. rewrite Hd2; cbn.
    repeat split.
    + apply lookup_delete_eq.
    + apply lookup_delete_eq.
    + now rewrite <- !app_assoc.
Qed.

(** C9: the two deletions of a synchronous deprovision are two calls on the
    store, the second made only after the first has returned.  When the
    database deletes the instance row and then refuses to delete the request
    parameters, [Deprovision] returns the wrapped error, the instance row is
    gone and the parameters are still there, orphaned. *)
Theorem Deprovision_partial_delete_orphans_request
    (broker : @ServiceBroker JSONObject Ctx Identity ServicePlan VarContext)
    (ctx : Ctx) (instanceID : string) (details : DeprovisionDetails)
    (w : World (MemStore JSONObject) CorrelationID)
    (row : ServiceInstanceDetails) (parameters : JSONObject) (err : error) :
  ProviderAnswered DecodeOriginatingIdentityHeader generateTFInstanceID
    broker ctx instanceID details (store w) row parameters None ->
  failing (store w) (CallDeleteServiceInstanceDetails instanceID) = None ->
  failing (store w) (CallDeleteProvisionRequestDetails instanceID) = Some err ->
  let run := Deprovision correlation_ID DecodeOriginatingIdentityHeader
               generateTFInstanceID DeprovisionOperationType
               broker ctx instanceID details true w in
  fst run = ({| IsAsync := false; OperationData := EmptyString |},
             Some (Errorf "error deleting provision request details from the database: %w"
                          [AError err]))
  /\ instanceRows (store w) !! instanceID = Some row
  /\ instanceRows (store (snd run)) !! instanceID = None
  /\ requestRows (store (snd run)) !! instanceID = Some parameters
  /\ calls (store (snd run))
     = calls (store w)
       ++ [CallExistsServiceInstanceDetails instanceID;
           CallGetServiceInstanceDetails instanceID;
           CallGetProvisionRequestDetails instanceID;
           CallDeleteServiceInstanceDetails instanceID;
           CallDeleteProvisionRequestDetails instanceID].
Proof.
  intros [He Hrow Hg Hr Hp (sd & sp & plan & vars & Hdef & Hchk & Hplan & Hvars & Hdep)]
         Hd1 Hd2.
  cbn zeta. run_store.
  rewrite He, Hrow; cbn. rewrite Hg, ?Hrow; cbn. rewrite Hdef, Hchk, Hplan; cbn.
  rewrite Hr, Hp, Hvars, Hdep; cbn. rewrite Hd1; cbn. rewrite Hd2; cbn.
  repeat split.
  - apply lookup_delete_eq.
  - exact Hp.
  - now rewrite <- !app_assoc.
Qed.

End BrokerProperties.

(** The sample broker, its provider answering at once: both rows are gone. *)
Lemma Deprovision_sync_deletes_async_marks_witness :
  let run := SampleBroker.Deprovision (Ok None) "inst-1" true SampleBroker.healthy in
  fst run = ({| IsAsync := false; OperationData := EmptyString |}, None)
  /\ instanceRows (store (snd run)) !! "inst-1" = None
  /\ requestRows (store (snd run)) !! "inst-1" = None.
Proof.
  pose proof (Deprovision_sync_deletes_async_marks
                (fun _ : unit => "correlation-1"%string) (fun _ : unit => tt)
                (fun id => ("tf:" ++ id ++ ":")%string) "deprovision"
                (SampleBroker.broker (Ok None)) tt "inst-1" SampleBroker.details
                (SampleBroker.world SampleBroker.healthy)
                SampleBroker.instance "params" None) as W.
  cbn zeta in W.
  destruct W as (Hres & Hinst & Hreq & _).
  - constructor; try reflexivity.
    exists SampleBroker.definition, (SampleBroker.provider (Ok None)), "plan-1"%string, "params"%string.
    repeat split.
  - reflexivity.
  - reflexivity.
  - repeat split; assumption.
Defined.

(** The same broker, its provider answering with an operation id: the row
    stays, marked. *)
Example Deprovision_async_marks_sample :
  let run := SampleBroker.Deprovision (Ok (Some "op-1"%string)) "inst-1" true SampleBroker.healthy in
  fst run = ({| IsAsync := true; OperationData := "op-1" |}, None)
  /\ instanceRows (store (snd run)) !! "inst-1"
     = Some {| GUID := "inst-1"; ServiceGUID := "service-1"; PlanGUID := "plan-1";
               OperationType := "deprovision"; OperationGUID := "op-1" |}
  /\ requestRows (store (snd run)) !! "inst-1" = Some "params"%string.
Proof. vm_compute. repeat split. Qed.

(** An instance that does not exist, and a client without async support. *)
Example Deprovision_sample_refusals :
  snd (fst (SampleBroker.Deprovision (Ok None) "inst-2" true SampleBroker.healthy))
    = Some ErrInstanceDoesNotExist
  /\ snd (fst (SampleBroker.Deprovision (Ok None) "inst-2" false SampleBroker.healthy))
    = Some ErrAsyncRequired
  /\ snd (fst (SampleBroker.Deprovision (Ok None) "inst-1" false SampleBroker.healthy))
    = Some ErrAsyncRequired.
Proof. vm_compute. repeat split. Qed.

(** The sample broker on a database that refuses the second deletion. *)
Lemma Deprovision_partial_delete_orphans_request_witness :
  let run := SampleBroker.Deprovision (Ok None) "inst-1" true SampleBroker.refusesRequestDelete in
  snd (fst run)
    = Some (Errorf "error deleting provision request details from the database: %w"
                   [AError (errors_New "database is locked")])
  /\ instanceRows (store (snd run)) !! "inst-1" = None
  /\ requestRows (store (snd run)) !! "inst-1" = Some "params"%string.
Proof.
  pose proof (Deprovision_partial_delete_orphans_request
                (fun _ : unit => "correlation-1"%string) (fun _ : unit => tt)
                (fun id => ("tf:" ++ id ++ ":")%string) "deprovision"
                (SampleBroker.broker (Ok None)) tt "inst-1" SampleBroker.details
                (SampleBroker.world SampleBroker.refusesRequestDelete)
                SampleBroker.instance "params" (errors_New "database is locked")) as W.
  cbn zeta in W.
  destruct W as (Hres & _ & Hinst & Hreq & _).
  - constructor; try reflexivity.
    exists SampleBroker.definition, (SampleBroker.provider (Ok None)), "plan-1"%string, "params"%string.
    repeat split.
  - reflexivity.
  - reflexivity.
  - cbn zeta. unfold SampleBroker.Deprovision.
    split; [now rewrite Hres | split; assumption].
Defined.

(** ** The Terraform 0.12 invoker *)

Section InvokerProperties.
Context {Executor : Type}.

Lemma Import_commands (init : list TerraformCommand) (ranged : list (string * string)) :
  fold_left (fun commands '(resource, id) => commands ++ [NewImport resource id]) ranged init
  = init ++ map importOf ranged.
Proof.
  revert init. induction ranged as [| [resource id] ranged IH]; intros init; cbn.
  - now rewrite app_nil_r.
  - rewrite IH, <- app_assoc. reflexivity.
Qed.

#[local] Instance importOf_inj : Inj (=) (=) importOf.
Proof. intros [r1 i1] [r2 i2] Heq. unfold importOf in Heq. cbn in Heq. congruence. Qed.

(** On any workspace, each action is one call of [Execute] on its commands. *)
Lemma invoker_Execute {W : Type} `{WorkspaceExecute W Executor}
    (cmd : @Terraform012Invoker Executor) (workspace : W) (ranged : list (string * string)) :
  let init := NewInit012 (pluginDirectory cmd) in
  let run := Execute workspace (executor cmd) in
  Apply cmd workspace = (snd (fst (run [init; NewApply])), snd (run [init; NewApply]))
  /\ Destroy cmd workspace = (snd (fst (run [init; NewDestroy])), snd (run [init; NewDestroy]))
  /\ Plan cmd workspace = run [init; NewPlan]
  /\ Show cmd workspace
     = ((StdOut (fst (fst (run [init; NewShow]))), snd (fst (run [init; NewShow]))),
        snd (run [init; NewShow]))
  /\ Import cmd workspace ranged
     = (snd (fst (run (init :: map importOf ranged))), snd (run (init :: map importOf ranged))).
Proof.
  cbn zeta. unfold Apply, Destroy, Plan, Show, Import. rewrite Import_commands. cbn [app].
  repeat split;
    match goal with
    | |- context [Execute ?w ?e ?cs] => now destruct (Execute w e cs) as [[? ?] ?]
    end.
Qed.

(** C8: whatever the workspace, [Apply], [Destroy], [Plan] and [Show] are
    each one call of its [Execute] on the two commands init (of the 0.12
    dialect, with the invoker's plugin directory) and the action, in that
    order, and [Import] is one call on init followed by one import command
    for each pair of the resources map, each pair once and nothing else.  A
    workspace that records what it is asked to execute has recorded exactly
    that one call more. *)
Theorem invoker_command_sequences
    (cmd : @Terraform012Invoker Executor) (recording : FakeWorkspace)
    (resources : gmap string string) (ranged : list (string * string)) :
  rangeOf resources ranged ->
  let init := NewInit012 (pluginDirectory cmd) in
  let before := ExecuteArgsForCall recording in
  let imports := map importOf ranged in
  (forall (W : Type) (HW : WorkspaceExecute W Executor) (workspace : W),
     let run := Execute workspace (executor cmd) in
     Apply cmd workspace = (snd (fst (run [init; NewApply])), snd (run [init; NewApply]))
     /\ Destroy cmd workspace = (snd (fst (run [init; NewDestroy])), snd (run [init; NewDestroy]))
     /\ Plan cmd workspace = run [init; NewPlan]
     /\ Show cmd workspace
        = ((StdOut (fst (fst (run [init; NewShow]))), snd (fst (run [init; NewShow]))),
           snd (run [init; NewShow]))
     /\ Import cmd workspace ranged
        = (snd (fst (run (init :: imports))), snd (run (init :: imports))))
  /\ ExecuteArgsForCall (snd (Apply cmd recording)) = before ++ [[init; NewApply]]
  /\ ExecuteArgsForCall (snd (Destroy cmd recording)) = before ++ [[init; NewDestroy]]
  /\ ExecuteArgsForCall (snd (Plan cmd recording)) = before ++ [[init; NewPlan]]
  /\ ExecuteArgsForCall (snd (Show cmd recording)) = before ++ [[init; NewShow]]
  /\ ExecuteArgsForCall (snd (Import cmd recording ranged)) = before ++ [init :: imports]
  /\ imports ≡ₚ map importOf (map_to_list resources)
  /\ length imports = size resources
  /\ NoDup imports
  /\ (forall c, c ∈ imports <->
                exists resource id, c = NewImport resource id
                                    /\ resources !! resource = Some id).
Proof.
  intros Hrange init before imports.
  split; [intros W HW workspace; apply invoker_Execute |].
  destruct recording as [[out err] args]. cbn in before.
  unfold rangeOf in Hrange.
  do 4 (split; [reflexivity |]).
  split; [| split; [| split; [| split]]].
  - unfold Import. rewrite Import_commands. reflexivity.
  - unfold imports. now rewrite Hrange.
  - unfold imports. rewrite length_map, Hrange. apply length_map_to_list.
  - apply (NoDup_fmap_2 importOf).
    rewrite Hrange. apply NoDup_map_to_list.
  - intros c. unfold imports. rewrite list_elem_of_fmap. split.
    + intros ([resource id] & -> & Hin). exists resource, id. split; [reflexivity |].
      rewrite Hrange in Hin. now apply elem_of_map_to_list in Hin.
    + intros (resource & id & -> & Hlook). exists (resource, id). split; [reflexivity |].
      rewrite Hrange. now apply elem_of_map_to_list.
Qed.

End InvokerProperties.

(** Two resources, met by the loop in the order other than the one the map
    lists them in. *)
Lemma invoker_command_sequences_witness :
  rangeOf SampleInvoker.resources SampleInvoker.ranged
  /\ ExecuteArgsForCall (snd (Apply SampleInvoker.invoker SampleInvoker.fresh))
     = [[NewInit012 "/plugins"; NewApply]]
  /\ ExecuteArgsForCall (snd (Import SampleInvoker.invoker SampleInvoker.fresh SampleInvoker.ranged))
     = [[NewInit012 "/plugins";
         NewImport "aws_instance.web" "i-0abc";
         NewImport "aws_s3_bucket.logs" "logs-bucket"]].
Proof.
  assert (Hrange : rangeOf SampleInvoker.resources SampleInvoker.ranged).
  { unfold rangeOf. vm_compute. apply perm_swap. }
  split; [exact Hrange |].
  destruct (invoker_command_sequences SampleInvoker.invoker SampleInvoker.fresh
              SampleInvoker.resources SampleInvoker.ranged Hrange)
    as (_ & Happly & _ & _ & _ & Himport & _).
  split; [exact Happly | exact Himport].
Defined.

(** ** The variable context builder *)

Section BuilderProperties.
Context {V : Type}.
Context (Eval : string -> gmap string V -> result V).
Context (castTo : V -> string -> result V).
Context (json_Unmarshal_map : bytes -> result (gmap string V)).
Context (asString : V -> option string).

Abbreviation call_ := (call Eval castTo json_Unmarshal_map asString).
Abbreviation chain_ := (chain Eval castTo json_Unmarshal_map asString).
Abbreviation supplied_ := (supplied json_Unmarshal_map).
Abbreviation lastSupplied_ := (lastSupplied json_Unmarshal_map).
Abbreviation storesUnder_ := (storesUnder json_Unmarshal_map).

Implicit Types (b builder : @ContextBuilder V) (c : @BuilderCall V) (k : string).

Lemma unlessFailed_failed f b e : errors b = Some e -> unlessFailed f b = b.
Proof. intros He. unfold unlessFailed. now rewrite He. Qed.

Lemma unlessFailed_ok f b : errors b = None -> unlessFailed f b = f b.
Proof. intros He. unfold unlessFailed. now rewrite He. Qed.

Lemma MergeDefaultWithEval_failed vs b e :
  errors b = Some e -> MergeDefaultWithEval Eval castTo asString vs b = b.
Proof.
  intros He. unfold MergeDefaultWithEval.
  induction vs as [| v vs IH]; cbn; [reflexivity |].
  unfold mergeDefault at 2. now rewrite (unlessFailed_failed _ _ _ He).
Qed.

Lemma call_failed c b e : errors b = Some e -> call_ c b = b.
Proof.
  intros He. destruct c; cbn;
    try (unfold SetEvalConstants, MergeMap, MergeEvalResult, MergeJSONObject, MergeStruct, MergeMap;
         now apply unlessFailed_failed with e).
  now apply MergeDefaultWithEval_failed with e.
Qed.

Lemma chain_failed cs b e : errors b = Some e -> chain_ cs b = b.
Proof.
  revert b. induction cs as [| c cs IH]; intros b He; cbn; [reflexivity |].
  unfold chain in IH. rewrite (call_failed _ _ _ He). now apply IH.
Qed.

Lemma chain_app cs1 cs2 b : chain_ (cs1 ++ cs2) b = chain_ cs2 (chain_ cs1 b).
Proof. unfold chain. apply fold_left_app. Qed.

Lemma chain_cons c cs b : chain_ (c :: cs) b = chain_ cs (call_ c b).
Proof. reflexivity. Qed.

Lemma chain_ok_before cs b : errors (chain_ cs b) = None -> errors b = None.
Proof.
  intros Hok. destruct (errors b) as [e |] eqn:He; [| reflexivity].
  rewrite (chain_failed _ _ _ He) in Hok. congruence.
Qed.


(** *** Plain merges *)

Lemma MergeMap_context data b k :
  errors b = None ->
  context (MergeMap data b) !! k
  = match data !! k with Some v => Some v | None => context b !! k end.
Proof.
  intros Hok. unfold MergeMap. rewrite (unlessFailed_ok _ _ Hok). cbn.
  rewrite lookup_union. now destruct (data !! k), (context b !! k).
Qed.

Lemma MergeMap_errors data b : errors (MergeMap data b) = errors b.
Proof. unfold MergeMap, unlessFailed. now destruct (errors b) eqn:He. Qed.

Lemma MergeMap_constants data b : constants (MergeMap data b) = constants b.
Proof. unfold MergeMap, unlessFailed. now destruct (errors b). Qed.

Lemma plain_call_context c b k :
  isPlainMerge c = true ->
  errors (call_ c b) = None ->
  context (call_ c b) !! k
  = match supplied_ c !! k with Some v => Some v | None => context b !! k end.
Proof.
  intros Hplain Hok.
  assert (Hb : errors b = None).
  { destruct (errors b) as [e |] eqn:He; [| reflexivity].
    rewrite (call_failed _ _ _ He) in Hok. congruence. }
  destruct c; try discriminate; cbn in *.
  - now apply MergeMap_context.
  - unfold MergeJSONObject in *. rewrite (unlessFailed_ok _ _ Hb) in *.
    destruct (Nat.eqb (length data) 0); [now rewrite lookup_empty |].
    destruct (json_Unmarshal_map data) as [out | e]; [| discriminate].
    now apply MergeMap_context.
Qed.

Lemma plain_chain_context cs b k :
  forallb isPlainMerge cs = true ->
  errors (chain_ cs b) = None ->
  context (chain_ cs b) !! k
  = match lastSupplied_ k cs with Some v => Some v | None => context b !! k end.
Proof.
  revert b. induction cs as [| c cs IH]; intros b Hplain Hok; [reflexivity |].
  cbn in Hplain. apply andb_prop in Hplain as [Hc Hcs].
  rewrite chain_cons in *. rewrite (IH _ Hcs Hok). cbn.
  destruct (lastSupplied_ k cs); [reflexivity |].
  apply plain_call_context; [exact Hc |].
  now apply chain_ok_before in Hok.
Qed.

(** [lastSupplied] is the value of the last call that supplies one. *)
Lemma lastSupplied_Some k cs v :
  lastSupplied_ k cs = Some v <->
  exists pre c post,
    cs = pre ++ c :: post
    /\ supplied_ c !! k = Some v
    /\ Forall (fun c' => supplied_ c' !! k = None) post.
Proof.
  induction cs as [| c cs IH]; cbn.
  - split; [discriminate |]. intros (pre & c & post & Heq & _). now destruct pre.
  - destruct (lastSupplied_ k cs) as [v' |] eqn:Hlast.
    + split.
      * intros [= ->]. destruct (proj1 IH eq_refl) as (pre & c' & post & -> & Hs & Hpost).
        exists (c :: pre), c', post. auto.
      * intros (pre & c' & post & Heq & Hs & Hpost).
        destruct pre as [| p pre]; cbn in Heq; injection Heq as -> ->.
        -- assert (Hnone : lastSupplied_ k post = None).
           { clear -Hpost. induction Hpost as [| x l Hx _ IHl]; cbn; [reflexivity |].
             now rewrite IHl. }
           congruence.
        -- apply IH. eauto 6.
    + split.
      * intros Hs. exists [], c, cs. repeat split; [exact Hs |].
        clear -Hlast. induction cs as [| x l IHl]; [constructor |].
        cbn in Hlast. destruct (lastSupplied_ k l); [discriminate |].
        constructor; auto.
      * intros (pre & c' & post & Heq & Hs & Hpost).
        destruct pre as [| p pre]; cbn in Heq; injection Heq as -> ->; [exact Hs |].
        exfalso. enough (Hsome : @None V = Some v) by discriminate.
        apply IH. eauto 6.
Qed.

Lemma lastSupplied_None k cs :
  lastSupplied_ k cs = None <-> Forall (fun c => supplied_ c !! k = None) cs.
Proof.
  induction cs as [| c cs IH]; cbn; [split; auto |].
  destruct (lastSupplied_ k cs).
  - split; [discriminate |]. intros Hall. inversion Hall; subst.
    destruct IH as [_ IH]. now specialize (IH ltac:(assumption)).
  - split.
    + intros Hc. constructor; [exact Hc | now apply IH].
    + intros Hall. now inversion Hall.
Qed.


(** *** Constants *)

Lemma MergeEvalResult_constants key template ty b :
  constants (MergeEvalResult Eval castTo key template ty b) = constants b.
Proof.
  unfold MergeEvalResult, unlessFailed. destruct (errors b); [reflexivity |].
  destruct (Eval _ _); [| reflexivity]. now destruct (castTo _ _).
Qed.

Lemma MergeEvalResult_context_other key template ty b k :
  key <> k ->
  context (MergeEvalResult Eval castTo key template ty b) !! k = context b !! k.
Proof.
  intros Hne. unfold MergeEvalResult, unlessFailed. destruct (errors b); [reflexivity |].
  destruct (Eval _ _); [| reflexivity]. destruct (castTo _ _); [| reflexivity].
  cbn. now apply lookup_insert_ne.
Qed.

Lemma mergeDefault_constants v b :
  constants (mergeDefault Eval castTo asString v b) = constants b.
Proof.
  unfold mergeDefault, unlessFailed. destruct (errors b); [reflexivity |].
  destruct (Default v); [| reflexivity].
  destruct (_ && _); [reflexivity |].
  destruct (asString _); [apply MergeEvalResult_constants | reflexivity].
Qed.

Lemma mergeDefault_context_other v b k :
  Name v <> k ->
  context (mergeDefault Eval castTo asString v b) !! k = context b !! k.
Proof.
  intros Hne. unfold mergeDefault, unlessFailed. destruct (errors b); [reflexivity |].
  destruct (Default v); [| reflexivity].
  destruct (_ && _); [reflexivity |].
  destruct (asString _); [now apply MergeEvalResult_context_other |].
  cbn. now apply lookup_insert_ne.
Qed.

Lemma MergeDefaultWithEval_constants vs b :
  constants (MergeDefaultWithEval Eval castTo asString vs b) = constants b.
Proof.
  unfold MergeDefaultWithEval. revert b.
  induction vs as [| v vs IH]; intros b; cbn; [reflexivity |].
  now rewrite IH, mergeDefault_constants.
Qed.

Lemma MergeDefaultWithEval_context_other vs b k :
  existsb (fun v => bool_decide (Name v = k)) vs = false ->
  context (MergeDefaultWithEval Eval castTo asString vs b) !! k = context b !! k.
Proof.
  unfold MergeDefaultWithEval. revert b.
  induction vs as [| v vs IH]; intros b Hno; cbn; [reflexivity |].
  cbn in Hno. apply orb_false_elim in Hno as [Hv Hvs].
  rewrite (IH _ Hvs). apply mergeDefault_context_other.
  now apply bool_decide_eq_false in Hv.
Qed.

Lemma MergeJSONObject_constants data b :
  constants (MergeJSONObject json_Unmarshal_map data b) = constants b.
Proof.
  unfold MergeJSONObject, unlessFailed. destruct (errors b) eqn:He; [reflexivity |].
  destruct (Nat.eqb _ _); [reflexivity |].
  destruct (json_Unmarshal_map data); [apply MergeMap_constants | reflexivity].
Qed.

Lemma MergeMap_context_other data b k :
  data !! k = None -> context (MergeMap data b) !! k = context b !! k.
Proof.
  intros Hnone. unfold MergeMap, unlessFailed. destruct (errors b); [reflexivity |].
  cbn. rewrite lookup_union, Hnone. now destruct (context b !! k).
Qed.

Lemma not_is_Some_None {A} (o : option A) : bool_decide (is_Some o) = false -> o = None.
Proof.
  intros Hd. apply bool_decide_eq_false in Hd. now apply eq_None_not_Some.
Qed.

(** A call that does not store under [k] leaves the context's [k] as it is. *)
Lemma call_context_other c b k :
  storesUnder_ k c = false -> context (call_ c b) !! k = context b !! k.
Proof.
  intros Hst. destruct c; cbn in *.
  - unfold SetEvalConstants, unlessFailed. now destruct (errors b).
  - apply MergeMap_context_other. now apply not_is_Some_None.
  - apply MergeEvalResult_context_other. now apply bool_decide_eq_false in Hst.
  - now apply MergeDefaultWithEval_context_other.
  - apply not_is_Some_None in Hst.
    unfold MergeJSONObject, unlessFailed. destruct (errors b); [reflexivity |].
    destruct (Nat.eqb _ _); [reflexivity |].
    destruct (json_Unmarshal_map data); [now apply MergeMap_context_other | reflexivity].
  - unfold MergeStruct. apply MergeMap_context_other. now apply not_is_Some_None.
Qed.

Lemma chain_context_other cs b k :
  forallb (fun c => negb (storesUnder_ k c)) cs = true ->
  context (chain_ cs b) !! k = context b !! k.
Proof.
  revert b. induction cs as [| c cs IH]; intros b Hno; [reflexivity |].
  cbn in Hno. apply andb_prop in Hno as [Hc Hcs].
  rewrite chain_cons, (IH _ Hcs). apply call_context_other.
  now apply negb_true_iff in Hc.
Qed.

Lemma evaluationContext_constant b k v :
  constants b !! k = Some v -> evaluationContext b !! k = Some v.
Proof. intros Hc. unfold evaluationContext. now apply lookup_union_Some_l. Qed.


(** C3: after any chain of [MergeMap] and [MergeJSONObject] calls on a fresh
    builder that builds, the context holds under each key the value supplied
    by the last call of the chain that set the key, whole, whatever the
    earlier calls supplied for it; and nothing under a key no call set. *)
Theorem plain_merges_last_write_wins (calls : list (@BuilderCall V)) (ctx : gmap string V) :
  forallb isPlainMerge calls = true ->
  Build (chain_ calls Builder) = Ok ctx ->
  forall k,
    ctx !! k = lastSupplied_ k calls
    /\ (forall pre c post v,
          calls = pre ++ c :: post ->
          supplied_ c !! k = Some v ->
          Forall (fun c' => supplied_ c' !! k = None) post ->
          ctx !! k = Some v)
    /\ (Forall (fun c => supplied_ c !! k = None) calls -> ctx !! k = None).
Proof.
  intros Hplain Hbuild k. unfold Build in Hbuild.
  destruct (errors (chain_ calls Builder)) eqn:Hok; [discriminate |].
  injection Hbuild as <-.
  assert (Hlast : context (chain_ calls Builder) !! k = lastSupplied_ k calls).
  { rewrite (plain_chain_context _ _ _ Hplain Hok). cbn.
    destruct (lastSupplied_ k calls); [reflexivity | apply lookup_empty]. }
  split; [exact Hlast |]. rewrite Hlast. split.
  - intros pre c post v Heq Hs Hpost. apply lastSupplied_Some. eauto 6.
  - apply lastSupplied_None.
Qed.

Lemma call_constants c b k :
  errors b = None ->
  constants (call_ c b) !! k
  = match declared c !! k with Some v => Some v | None => constants b !! k end.
Proof.
  intros Hok. destruct c; cbn; rewrite ?lookup_empty.
  - unfold SetEvalConstants. rewrite (unlessFailed_ok _ _ Hok). cbn.
    rewrite lookup_union. now destruct (consts !! k), (constants b !! k).
  - now rewrite MergeMap_constants.
  - now rewrite MergeEvalResult_constants.
  - now rewrite MergeDefaultWithEval_constants.
  - now rewrite MergeJSONObject_constants.
  - unfold MergeStruct. now rewrite MergeMap_constants.
Qed.

Lemma chain_constants cs b k :
  errors (chain_ cs b) = None ->
  constants (chain_ cs b) !! k
  = match lastDeclared k cs with Some v => Some v | None => constants b !! k end.
Proof.
  revert b. induction cs as [| c cs IH]; intros b Hok; [reflexivity |].
  rewrite chain_cons in *. rewrite (IH _ Hok). cbn.
  destruct (lastDeclared k cs); [reflexivity |].
  apply call_constants.
  apply chain_ok_before in Hok.
  destruct (errors b) as [e |] eqn:He; [| reflexivity].
  rewrite (call_failed _ _ _ He) in Hok. congruence.
Qed.

Lemma lastDeclared_app k (cs1 cs2 : list (@BuilderCall V)) :
  lastDeclared k (cs1 ++ cs2)
  = match lastDeclared k cs2 with Some v => Some v | None => lastDeclared k cs1 end.
Proof.
  induction cs1 as [| c cs1 IH]; cbn.
  - now destruct (lastDeclared k cs2).
  - rewrite IH. now destruct (lastDeclared k cs2).
Qed.

Lemma lastDeclared_not_declared k (cs : list (@BuilderCall V)) :
  forallb (fun c => negb (declares k c)) cs = true -> lastDeclared k cs = None.
Proof.
  induction cs as [| c cs IH]; cbn; [reflexivity |].
  intros Hno. apply andb_prop in Hno as [Hc Hcs]. rewrite (IH Hcs).
  apply negb_true_iff in Hc. destruct c; cbn in *; rewrite ?lookup_empty; try reflexivity.
  now apply not_is_Some_None.
Qed.

(** C2, as amended: in a chain that builds, in which [SetEvalConstants]
    declares the constant [k] and a later [MergeMap] merges a plain value
    under [k], expression evaluation sees the constant, whatever was merged:
    the evaluation context maps [k] to the value [k] was last declared with
    (the one of that call, if no later call declares [k] again), so a
    [MergeEvalResult] of a template that refers to [k] stores that value,
    cast.  The built context, looked up directly, maps [k] to the plain
    value as long as no later call stores under [k]. *)
Theorem constant_not_shadowed_by_plain_merge
    (pre mid post : list (@BuilderCall V)) (consts data : gmap string V)
    (k : string) (cv pv : V) (ctx : gmap string V) :
  consts !! k = Some cv ->
  data !! k = Some pv ->
  let calls := pre ++ [CallSetEvalConstants consts] ++ mid
                   ++ [CallMergeMap data] ++ post in
  let b := chain_ calls Builder in
  Build b = Ok ctx ->
  exists seenValue,
    lastDeclared k calls = Some seenValue
    /\ (forallb (fun c => negb (declares k c)) (mid ++ post) = true -> seenValue = cv)
    /\ evaluationContext b !! k = Some seenValue
    /\ (forall key template resultType converted,
          (forall seen v, seen !! k = Some v -> Eval template seen = Ok v) ->
          castTo seenValue resultType = Ok converted ->
          Build (MergeEvalResult Eval castTo key template resultType b)
          = Ok (<[key := converted]> ctx))
    /\ (forallb (fun c => negb (storesUnder_ k c)) post = true ->
        ctx !! k = Some pv
        /\ forall key converted, key <> k -> (<[key := converted]> ctx) !! k = Some pv).
Proof.
  intros Hcv Hpv calls b Hbuild. unfold Build in Hbuild.
  destruct (errors b) eqn:Hok; [discriminate |]. injection Hbuild as <-.
  assert (Hlast : lastDeclared k calls
                  = match lastDeclared k (mid ++ [CallMergeMap data] ++ post) with
                    | Some v => Some v
                    | None => Some cv
                    end).
  { unfold calls. rewrite lastDeclared_app.
    cbn [app lastDeclared declared]. rewrite Hcv.
    now destruct (lastDeclared k (mid ++ CallMergeMap data :: post)). }
  assert (Hsome : exists seenValue, lastDeclared k calls = Some seenValue).
  { rewrite Hlast. destruct (lastDeclared k (mid ++ _)); eauto. }
  destruct Hsome as [seenValue Hseen]. exists seenValue.
  assert (Hctx : evaluationContext b !! k = Some seenValue).
  { apply evaluationContext_constant. unfold b.
    now rewrite (chain_constants _ _ _ Hok), Hseen. }
  split; [exact Hseen | split; [| split; [exact Hctx | split]]].
  - intros Hdecl. rewrite Hlast in Hseen.
    rewrite lastDeclared_not_declared in Hseen; [congruence |].
    rewrite forallb_app in Hdecl. apply andb_prop in Hdecl as [Hmid Hpost].
    rewrite !forallb_app, Hmid, Hpost. reflexivity.
  - intros key template resultType converted Href Hcast.
    unfold MergeEvalResult. rewrite (unlessFailed_ok _ _ Hok).
    rewrite (Href _ _ Hctx), Hcast. unfold Build. cbn. now rewrite Hok.
  - intros Hstores.
    assert (Hplain : context b !! k = Some pv).
    { unfold b, calls.
      replace (pre ++ [CallSetEvalConstants consts] ++ mid ++ [CallMergeMap data] ++ post)
        with ((pre ++ [CallSetEvalConstants consts] ++ mid) ++ [CallMergeMap data] ++ post)
        by (now rewrite <- !app_assoc).
      rewrite !chain_app. rewrite (chain_context_other _ _ _ Hstores). cbn.
      rewrite MergeMap_context, Hpv; [reflexivity |].
      unfold b, calls in Hok.
      replace (pre ++ [CallSetEvalConstants consts] ++ mid ++ [CallMergeMap data] ++ post)
        with ((pre ++ [CallSetEvalConstants consts] ++ mid) ++ [CallMergeMap data] ++ post)
        in Hok by (now rewrite <- !app_assoc).
      rewrite !chain_app in Hok.
      apply chain_ok_before in Hok. cbn in Hok. rewrite MergeMap_errors in Hok.
      exact Hok. }
    split; [exact Hplain |].
    intros key converted Hne. now rewrite lookup_insert_ne.
Qed.

End BuilderProperties.

(** The tests' overwrite, the second value arriving as a message. *)
Lemma plain_merges_last_write_wins_witness :
  let calls := [CallMergeMap {[ "a" := "a"; "b" := "b" ]};
                CallMergeJSONObject (list_byte_of_string "a=aaa")] in
  let ctx := context (SampleContext.chain calls) in
  ctx !! "a" = Some "aaa"%string /\ ctx !! "b" = Some "b"%string /\ ctx !! "c" = None.
Proof.
  intros calls ctx.
  assert (Hplain : forallb isPlainMerge calls = true) by reflexivity.
  assert (Hbuild : Build (SampleContext.chain calls) = Ok ctx) by reflexivity.
  pose proof (plain_merges_last_write_wins
                SampleContext.Eval SampleContext.castTo SampleContext.json_Unmarshal_map
                SampleContext.asString calls ctx Hplain Hbuild) as W.
  split; [| split].
  - rewrite (proj1 (W "a"%string)). reflexivity.
  - rewrite (proj1 (W "b"%string)). reflexivity.
  - rewrite (proj1 (W "c"%string)). reflexivity.
Defined.

(** The spec's scenario: the constant [PI] is 3.14, the plain [PI] 3.2. *)
Lemma constant_not_shadowed_by_plain_merge_witness :
  let b := SampleContext.chain [CallSetEvalConstants {[ "PI" := "3.14" ]};
                                CallMergeMap {[ "PI" := "3.2" ]}] in
  evaluationContext b !! "PI" = Some "3.14"%string
  /\ context b !! "PI" = Some "3.2"%string
  /\ Build (MergeEvalResult SampleContext.Eval SampleContext.castTo "out" "${PI}" "string" b)
     = Ok (<["out" := "3.14"%string]> (context b)).
Proof.
  intros b.
  pose proof (constant_not_shadowed_by_plain_merge
                SampleContext.Eval SampleContext.castTo SampleContext.json_Unmarshal_map
                SampleContext.asString [] [] []
                {[ "PI" := "3.14"%string ]} {[ "PI" := "3.2"%string ]}
                "PI" "3.14" "3.2" (context b)) as W.
  cbn zeta in W.
  destruct W as (seenValue & _ & Hcv & Hseen & Heval & Hplain);
    [reflexivity | reflexivity | reflexivity |].
  rewrite (Hcv eq_refl) in *.
  split; [exact Hseen | split].
  - now apply Hplain.
  - apply Heval; [| reflexivity].
    intros seen v Hv. unfold SampleContext.Eval. cbn. now rewrite Hv.
Defined.

(** C2, as the spec has it, fails on the tests' own chain: the expression
    refers to [PI] and its result is stored under [PI], so the built context
    maps [PI] to the constant's value and no longer to the plain one. *)
Lemma plain_value_overwritten_by_eval_result :
  exists ctx,
    Build (SampleContext.chain
             [CallSetEvalConstants {[ "PI" := "3.14" ]};
              CallMergeMap {[ "PI" := "3.2" ]};
              CallMergeEvalResult "PI" "${PI}" "string"]) = Ok ctx
    /\ ctx !! "PI" = Some "3.14"%string
    /\ ctx !! "PI" <> Some "3.2"%string.
Proof. eexists. split; [reflexivity |]. split; [reflexivity | discriminate]. Qed.

(** The scenario run to the end, into [out] as in the spec and into [PI]
    itself as in the tests. *)
Example constants_scenario :
  (exists ctx, Build (SampleContext.chain (SampleContext.scenario "out")) = Ok ctx
               /\ ctx !! "out" = Some "3.14"%string /\ ctx !! "PI" = Some "3.2"%string)
  /\ (exists ctx, Build (SampleContext.chain (SampleContext.scenario "PI")) = Ok ctx
                  /\ ctx !! "PI" = Some "3.14"%string).
Proof. split; eexists; (split; [reflexivity |]); repeat split. Qed.

(** Cases of the builder's tests, run on the sample instance. *)
Example builder_test_cases :
  Build (SampleContext.chain [CallMergeMap {[ "a" := "a" ]}; CallMergeMap {[ "a" := "aaa" ]}])
    = Ok {[ "a" := "aaa"%string ]}
  /\ Build (SampleContext.chain
              [CallMergeDefaultWithEval
                 [ {| Name := "a"; Default := Some "a"%string; Overwrite := false; Type_ := EmptyString |};
                   {| Name := "b"; Default := Some "${a}"%string; Overwrite := false; Type_ := EmptyString |} ]])
    = Ok {[ "a" := "a"%string; "b" := "a"%string ]}
  /\ Build (SampleContext.chain
              [CallMergeDefaultWithEval
                 [ {| Name := "a"; Default := Some "a"%string; Overwrite := false; Type_ := EmptyString |};
                   {| Name := "a"; Default := Some "b"%string; Overwrite := false; Type_ := EmptyString |} ]])
    = Ok {[ "a" := "a"%string ]}
  /\ Build (SampleContext.chain
              [CallMergeDefaultWithEval
                 [ {| Name := "a"; Default := Some "a"%string; Overwrite := false; Type_ := EmptyString |};
                   {| Name := "a"; Default := Some "b"%string; Overwrite := true; Type_ := EmptyString |} ]])
    = Ok {[ "a" := "b"%string ]}
  /\ Build (SampleContext.chain [CallMergeEvalResult "a" "${dne}" "string"])
    = Err (Errorf "couldn't compute the value for %q, template: %q, %v"
                  [AString "a"; AString "${dne}";
                   AError (errors_New "unknown variable accessed")])
  /\ Build (SampleContext.chain
              [CallSetEvalConstants {[ "PI" := "3.14"%string ]};
               CallMergeEvalResult "out" "${PI}" "string"])
    = Ok {[ "out" := "3.14"%string ]}
  /\ Build (SampleContext.chain [CallMergeJSONObject []]) = Ok ∅.
Proof. repeat split. Qed.

(** ** More on the broker's Deprovision *)

Section MoreBrokerProperties.
Context {JSONObject Ctx CorrelationID Identity ServicePlan VarContext : Type}.
Context (correlation_ID : Ctx -> CorrelationID).
Context (DecodeOriginatingIdentityHeader : Ctx -> Identity).
Context (generateTFInstanceID : string -> string).
Context (DeprovisionOperationType : string).

Abbreviation Deprovision_ :=
  (Deprovision correlation_ID DecodeOriginatingIdentityHeader generateTFInstanceID
               DeprovisionOperationType).

Ltac run_store :=
  unfold Deprovision, bind, onStore, Logger_Info, ret; cbn;
  unfold mem_Exists, mem_Get, mem_GetRequest, mem_DeleteInstance, mem_DeleteRequest,
         mem_StoreInstance; cbn.

(** X1: whatever happens in a call of [Deprovision] for one instance, on
    any path and with or without async support, the instance row and the
    request parameters of every other instance are as they were. *)
Theorem Deprovision_touches_only_its_instance
    (broker : @ServiceBroker JSONObject Ctx Identity ServicePlan VarContext)
    (ctx : Ctx) (instanceID other : string) (details : DeprovisionDetails)
    (clientSupportsAsync : bool)
    (w : World (MemStore JSONObject) CorrelationID) :
  other <> instanceID ->
  let run := Deprovision_ broker ctx instanceID details clientSupportsAsync w in
  instanceRows (store (snd run)) !! other = instanceRows (store w) !! other
  /\ requestRows (store (snd run)) !! other = requestRows (store w) !! other.
Proof.
  intros Hne. cbn zeta. run_store.
  destruct clientSupportsAsync; cbn; [| split; reflexivity].
  repeat (case_match; cbn in *; simplify_eq; cbn; try (split; reflexivity)).
  all: try (split; [try reflexivity; rewrite ?lookup_delete_ne, ?lookup_insert_ne by congruence; reflexivity
            | try reflexivity; rewrite ?lookup_delete_ne, ?lookup_insert_ne by congruence; reflexivity]).
Qed.

(** X2: a call of [Deprovision] ends in one of four ways: with an error
    and both tables as they were; with success, an empty response and both
    rows of the instance deleted; with success, an async response and the
    instance row replaced by the marked one, the parameters kept; or with the
    error of the second deletion, the instance row deleted and the
    parameters kept.  No other change to the tables is possible. *)
Theorem Deprovision_outcomes
    (broker : @ServiceBroker JSONObject Ctx Identity ServicePlan VarContext)
    (ctx : Ctx) (instanceID : string) (details : DeprovisionDetails)
    (clientSupportsAsync : bool)
    (w : World (MemStore JSONObject) CorrelationID) :
  let run := Deprovision_ broker ctx instanceID details clientSupportsAsync w in
  let response := fst (fst run) in
  let err := snd (fst run) in
  let before := store w in
  let after := store (snd run) in
  (is_Some err
   /\ instanceRows after = instanceRows before
   /\ requestRows after = requestRows before)
  \/ (err = None
      /\ response = {| IsAsync := false; OperationData := EmptyString |}
      /\ instanceRows after = delete instanceID (instanceRows before)
      /\ requestRows after = delete instanceID (requestRows before))
  \/ (exists row operationID,
        err = None
        /\ response = {| IsAsync := true; OperationData := operationID |}
        /\ instanceRows before !! instanceID = Some row
        /\ instanceRows after
           = <[instanceID := {| GUID := instanceID;
                                ServiceGUID := ServiceGUID row;
                                PlanGUID := PlanGUID row;
                                OperationType := DeprovisionOperationType;
                                OperationGUID := operationID |}]> (instanceRows before)
        /\ requestRows after = requestRows before)
  \/ (exists cause,
        err = Some (Errorf "error deleting provision request details from the database: %w"
                           [AError cause])
        /\ instanceRows after = delete instanceID (instanceRows before)
        /\ requestRows after = requestRows before).
Proof.
  cbn zeta. run_store.
  destruct clientSupportsAsync; cbn; [| left; repeat split; eauto].
  repeat (case_match; cbn in *; simplify_eq; cbn).
  all: first
    [ by (left; repeat split; eauto)
    | by (right; left; repeat split)
    | by (right; right; left; eexists _, _; repeat split; eauto)
    | by (right; right; right; eexists; repeat split; eauto) ].
Qed.

(** X3: for an instance that has no row, [Deprovision] returns the
    instance-does-not-exist error after the one existence check; no other
    call is made on the store and the tables are as they were. *)
Theorem Deprovision_absent_instance
    (broker : @ServiceBroker JSONObject Ctx Identity ServicePlan VarContext)
    (ctx : Ctx) (instanceID : string) (details : DeprovisionDetails)
    (w : World (MemStore JSONObject) CorrelationID) :
  failing (store w) (CallExistsServiceInstanceDetails instanceID) = None ->
  instanceRows (store w) !! instanceID = None ->
  let run := Deprovision_ broker ctx instanceID details true w in
  fst run = ({| IsAsync := false; OperationData := EmptyString |}, Some ErrInstanceDoesNotExist)
  /\ calls (store (snd run)) = calls (store w) ++ [CallExistsServiceInstanceDetails instanceID]
  /\ instanceRows (store (snd run)) = instanceRows (store w)
  /\ requestRows (store (snd run)) = requestRows (store w).
Proof.
  intros He Hrow. cbn zeta. run_store. rewrite He, Hrow. cbn. repeat split.
Qed.

(** X4: when the provider has answered with a nil operation id and the
    database refuses to delete the instance row, [Deprovision] returns that
    error, flattened into its message with the warning; the deletion of the
    request parameters is not attempted and both rows are still there. *)
Theorem Deprovision_first_delete_refused
    (broker : @ServiceBroker JSONObject Ctx Identity ServicePlan VarContext)
    (ctx : Ctx) (instanceID : string) (details : DeprovisionDetails)
    (w : World (MemStore JSONObject) CorrelationID)
    (row : ServiceInstanceDetails) (parameters : JSONObject) (err : error) :
  ProviderAnswered DecodeOriginatingIdentityHeader generateTFInstanceID
    broker ctx instanceID details (store w) row parameters None ->
  failing (store w) (CallDeleteServiceInstanceDetails instanceID) = Some err ->
  let run := Deprovision_ broker ctx instanceID details true w in
  fst run = ({| IsAsync := false; OperationData := EmptyString |},
             Some (Errorf "error deleting instance details from database: %s. WARNING: this instance will remain visible in cf. Contact your operator for cleanup"
                          [AError err]))
  /\ instanceRows (store (snd run)) = instanceRows (store w)
  /\ requestRows (store (snd run)) = requestRows (store w)
  /\ calls (store (snd run))
     = calls (store w)
       ++ [CallExistsServiceInstanceDetails instanceID;
           CallGetServiceInstanceDetails instanceID;
           CallGetProvisionRequestDetails instanceID;
           CallDeleteServiceInstanceDetails instanceID].
Proof.
  intros [He Hrow Hg Hr Hp (sd & sp & plan & vars & Hdef & Hchk & Hplan & Hvars & Hdep)] Hd1.
  cbn zeta. run_store.
  rewrite He, Hrow; cbn. rewrite Hg, ?Hrow; cbn. rewrite Hdef, Hchk, Hplan; cbn.
  rewrite Hr, Hp, Hvars, Hdep; cbn. rewrite Hd1; cbn.
  repeat split. now rewrite <- !app_assoc.
Qed.

(** X5: when the provider has answered with an operation id and the
    database refuses to save the marked row, [Deprovision] returns the error
    together with a response that already says async and carries the
    operation id; the instance row is the unmarked one and the parameters
    are kept. *)
Theorem Deprovision_async_store_refused
    (broker : @ServiceBroker JSONObject Ctx Identity ServicePlan VarContext)
    (ctx : Ctx) (instanceID : string) (details : DeprovisionDetails)
    (w : World (MemStore JSONObject) CorrelationID)
    (row : ServiceInstanceDetails) (parameters : JSONObject)
    (operationID : string) (err : error) :
  ProviderAnswered DecodeOriginatingIdentityHeader generateTFInstanceID
    broker ctx instanceID details (store w) row parameters (Some operationID) ->
  failing (store w)
    (CallStoreServiceInstanceDetails
       {| GUID := instanceID; ServiceGUID := ServiceGUID row; PlanGUID := PlanGUID row;
          OperationType := DeprovisionOperationType; OperationGUID := operationID |})
    = Some err ->
  let run := Deprovision_ broker ctx instanceID details true w in
  fst run = ({| IsAsync := true; OperationData := operationID |},
             Some (Errorf "error saving instance details to database: %s. WARNING: this instance will remain visible in cf. Contact your operator for cleanup"
                          [AError err]))
  /\ instanceRows (store (snd run)) !! instanceID = Some row
  /\ requestRows (store (snd run)) !! instanceID = Some parameters.
Proof.
  intros [He Hrow Hg Hr Hp (sd & sp & plan & vars & Hdef & Hchk & Hplan & Hvars & Hdep)] Hst.
  cbn zeta. run_store.
  rewrite He, Hrow; cbn. rewrite Hg, ?Hrow; cbn. rewrite Hdef, Hchk, Hplan; cbn.
  rewrite Hr, Hp, Hvars, Hdep; cbn. rewrite Hst; cbn.
  repeat split; assumption.
Qed.

(** X6: when the provider's upgrade check fails, [Deprovision] returns
    the error as "failed to delete"; the store has been asked only whether
    the instance exists and for its row: the plan is not looked up, the
    request parameters are not read and nothing is written. *)
Theorem Deprovision_upgrade_check_gate
    (broker : @ServiceBroker JSONObject Ctx Identity ServicePlan VarContext)
    (ctx : Ctx) (instanceID : string) (details : DeprovisionDetails)
    (w : World (MemStore JSONObject) CorrelationID)
    (row : ServiceInstanceDetails)
    (serviceDefinition : @ServiceDefinition JSONObject Identity ServicePlan VarContext)
    (serviceProvider : @ServiceProvider Ctx VarContext) (err : error) :
  failing (store w) (CallExistsServiceInstanceDetails instanceID) = None ->
  failing (store w) (CallGetServiceInstanceDetails instanceID) = None ->
  instanceRows (store w) !! instanceID = Some row ->
  getDefinitionAndProvider broker (ServiceGUID row) = Ok (serviceDefinition, serviceProvider) ->
  sp_CheckUpgradeAvailable serviceProvider (generateTFInstanceID instanceID) = Some err ->
  let run := Deprovision_ broker ctx instanceID details true w in
  fst run = ({| IsAsync := false; OperationData := EmptyString |},
             Some (Errorf "failed to delete: %s" [AError err]))
  /\ instanceRows (store (snd run)) = instanceRows (store w)
  /\ requestRows (store (snd run)) = requestRows (store w)
  /\ calls (store (snd run))
     = calls (store w)
       ++ [CallExistsServiceInstanceDetails instanceID;
           CallGetServiceInstanceDetails instanceID].
Proof.
  intros He Hg Hrow Hdef Hchk. cbn zeta. run_store.
  rewrite He, Hrow; cbn. rewrite Hg, ?Hrow; cbn. rewrite Hdef, Hchk; cbn.
  repeat split. now rewrite <- !app_assoc.
Qed.


End MoreBrokerProperties.

Section OutdatedState.
Context {E : Type} `{Encryptor E}.
Context {Version : Type} `{VersionOrder Version}.
Context {Workspace JSONObject Ctx CorrelationID Identity ServicePlan VarContext : Type}.
Context (zeroWorkspace : Workspace).
Context (json_Unmarshal : bytes -> Workspace -> Workspace * option error).
Context (StateVersion : Workspace -> result Version).
Context (correlation_ID : Ctx -> CorrelationID).
Context (DecodeOriginatingIdentityHeader : Ctx -> Identity).
Context (generateTFInstanceID : string -> string).
Context (DeprovisionOperationType : string).

(** X7: with the Terraform provider behind the service, an instance whose
    deployment records an engine version strictly lower than the provider's
    default is not deprovisioned: [Deprovision] returns the version error
    as "failed to delete" and both tables are as they were. *)
Theorem Deprovision_refuses_outdated_state
    (broker : @ServiceBroker JSONObject Ctx Identity ServicePlan VarContext)
    (ctx : Ctx) (instanceID : string) (details : DeprovisionDetails)
    (w : World (MemStore JSONObject) CorrelationID)
    (row : ServiceInstanceDetails)
    (serviceDefinition : @ServiceDefinition JSONObject Identity ServicePlan VarContext)
    (provider : @TerraformProvider E Version)
    (deprovision : Ctx -> string -> DeprovisionDetails -> VarContext -> result (option string))
    (deployment : @TerraformDeployment Workspace) (v : Version) :
  failing (store w) (CallExistsServiceInstanceDetails instanceID) = None ->
  failing (store w) (CallGetServiceInstanceDetails instanceID) = None ->
  instanceRows (store w) !! instanceID = Some row ->
  getDefinitionAndProvider broker (ServiceGUID row)
    = Ok (serviceDefinition,
          asServiceProvider zeroWorkspace json_Unmarshal StateVersion provider deprovision) ->
  GetTerraformDeployment zeroWorkspace json_Unmarshal (provider_store provider)
    (generateTFInstanceID instanceID) = Ok deployment ->
  StateVersion (TFWorkspace deployment) = Ok v ->
  (Compare v (DefaultTfVersion provider) < 0)%Z ->
  let run := Deprovision correlation_ID DecodeOriginatingIdentityHeader
               generateTFInstanceID DeprovisionOperationType
               broker ctx instanceID details true w in
  fst run = ({| IsAsync := false; OperationData := EmptyString |},
             Some (Errorf "failed to delete: %s" [AError ErrNewerVersion]))
  /\ instanceRows (store (snd run)) = instanceRows (store w)
  /\ requestRows (store (snd run)) = requestRows (store w).
Proof.
  intros He Hg Hrow Hdef Hget Hv Hlt.
  assert (Hchk : CheckUpgradeAvailable zeroWorkspace json_Unmarshal StateVersion provider
                   (generateTFInstanceID instanceID) = Some ErrNewerVersion).
  { unfold CheckUpgradeAvailable. rewrite Hget.
    rewrite (checkTerraformVersion_spec _ _ _ _ Hv). unfold LessThan.
    destruct (Z.ltb_spec (Compare v (DefaultTfVersion provider)) 0); [reflexivity | lia]. }
  cbn zeta.
  unfold Deprovision, bind, onStore, Logger_Info, ret; cbn.
  unfold mem_Exists, mem_Get; cbn.
  rewrite He, Hrow; cbn. rewrite Hg, ?Hrow; cbn. rewrite Hdef; cbn.
  rewrite Hchk; cbn. repeat split.
Qed.

End OutdatedState.

(** The other instance of the sample database keeps its rows. *)
Lemma Deprovision_touches_only_its_instance_witness :
  let run := SampleFaults.Deprovision [0; 12; 21]%Z "new" in
  snd (fst run) = None
  /\ instanceRows (store (snd run)) !! "new" = None
  /\ instanceRows (store (snd run)) !! "old" = Some (SampleFaults.row "old")
  /\ requestRows (store (snd run)) !! "old" = Some "params-old"%string.
Proof.
  pose proof (Deprovision_touches_only_its_instance
                (fun _ : unit => "correlation-1"%string) (fun _ : unit => tt)
                (fun id => ("tf:" ++ id ++ ":")%string) "deprovision"
                (SampleFaults.broker [0; 12; 21]%Z) tt "new" "old" SampleBroker.details true
                SampleFaults.world) as W.
  cbn zeta in W. destruct W as [Hinst Hreq]; [discriminate |].
  split; [reflexivity | split; [reflexivity | split]].
  - exact Hinst.
  - exact Hreq.
Defined.

Lemma Deprovision_absent_instance_witness :
  let run := SampleBroker.Deprovision (Ok None) "inst-2" true SampleBroker.healthy in
  fst run = ({| IsAsync := false; OperationData := EmptyString |}, Some ErrInstanceDoesNotExist)
  /\ calls (store (snd run)) = [CallExistsServiceInstanceDetails "inst-2"].
Proof.
  pose proof (Deprovision_absent_instance
                (fun _ : unit => "correlation-1"%string) (fun _ : unit => tt)
                (fun id => ("tf:" ++ id ++ ":")%string) "deprovision"
                (SampleBroker.broker (Ok None)) tt "inst-2" SampleBroker.details
                (SampleBroker.world SampleBroker.healthy)) as W.
  cbn zeta in W. destruct W as (Hres & Hcalls & _); [reflexivity | reflexivity |].
  split; [exact Hres | exact Hcalls].
Defined.

Lemma Deprovision_first_delete_refused_witness :
  let run := SampleBroker.Deprovision (Ok None) "inst-1" true SampleFaults.refusesInstanceDelete in
  is_Some (snd (fst run))
  /\ instanceRows (store (snd run)) !! "inst-1" = Some SampleBroker.instance
  /\ requestRows (store (snd run)) !! "inst-1" = Some "params"%string.
Proof.
  pose proof (Deprovision_first_delete_refused
                (fun _ : unit => "correlation-1"%string) (fun _ : unit => tt)
                (fun id => ("tf:" ++ id ++ ":")%string) "deprovision"
                (SampleBroker.broker (Ok None)) tt "inst-1" SampleBroker.details
                (SampleBroker.world SampleFaults.refusesInstanceDelete)
                SampleBroker.instance "params" (errors_New "database is locked")) as W.
  cbn zeta in W. destruct W as (Hres & Hinst & Hreq & _).
  - constructor; try reflexivity.
    exists SampleBroker.definition, (SampleBroker.provider (Ok None)), "plan-1"%string, "params"%string.
    repeat split.
  - reflexivity.
  - cbn zeta. unfold SampleBroker.Deprovision. rewrite Hres, Hinst, Hreq.
    split; [eexists; reflexivity | split; reflexivity].
Defined.

Lemma Deprovision_async_store_refused_witness :
  let run := SampleBroker.Deprovision (Ok (Some "op-1"%string)) "inst-1" true SampleFaults.refusesStore in
  fst (fst run) = {| IsAsync := true; OperationData := "op-1" |}
  /\ is_Some (snd (fst run))
  /\ instanceRows (store (snd run)) !! "inst-1" = Some SampleBroker.instance.
Proof.
  pose proof (Deprovision_async_store_refused
                (fun _ : unit => "correlation-1"%string) (fun _ : unit => tt)
                (fun id => ("tf:" ++ id ++ ":")%string) "deprovision"
                (SampleBroker.broker (Ok (Some "op-1"%string))) tt "inst-1" SampleBroker.details
                (SampleBroker.world SampleFaults.refusesStore)
                SampleBroker.instance "params" "op-1" (errors_New "database is locked")) as W.
  cbn zeta in W. destruct W as (Hres & Hinst & _).
  - constructor; try reflexivity.
    exists SampleBroker.definition, (SampleBroker.provider (Ok (Some "op-1"%string))),
           "plan-1"%string, "params"%string.
    repeat split.
  - reflexivity.
  - cbn zeta. unfold SampleBroker.Deprovision. rewrite Hres, Hinst.
    split; [reflexivity | split; [eexists; reflexivity | reflexivity]].
Defined.

Lemma Deprovision_upgrade_check_gate_witness :
  let run := SampleFaults.Deprovision [1; 1; 4]%Z "old" in
  snd (fst run) = Some (Errorf "failed to delete: %s" [AError ErrNewerVersion])
  /\ calls (store (snd run))
     = [CallExistsServiceInstanceDetails "old"; CallGetServiceInstanceDetails "old"].
Proof.
  pose proof (Deprovision_upgrade_check_gate
                (fun _ : unit => "correlation-1"%string) (fun _ : unit => tt)
                (fun id => ("tf:" ++ id ++ ":")%string) "deprovision"
                (SampleFaults.broker [1; 1; 4]%Z) tt "old" SampleBroker.details
                SampleFaults.world (SampleFaults.row "old")
                SampleBroker.definition (SampleFaults.provider [1; 1; 4]%Z)
                ErrNewerVersion) as W.
  cbn zeta in W.
  destruct W as (Hres & _ & _ & Hcalls);
    [reflexivity | reflexivity | reflexivity | reflexivity | reflexivity |].
  cbn zeta. unfold SampleFaults.Deprovision. rewrite Hres.
  split; [reflexivity | exact Hcalls].
Defined.

Lemma Deprovision_refuses_outdated_state_witness :
  let run := SampleFaults.Deprovision [1; 1; 4]%Z "old" in
  snd (fst run) = Some (Errorf "failed to delete: %s" [AError ErrNewerVersion])
  /\ instanceRows (store (snd run)) !! "old" = Some (SampleFaults.row "old")
  /\ requestRows (store (snd run)) !! "old" = Some "params-old"%string.
Proof.
  pose proof (Deprovision_refuses_outdated_state
                Sample.zeroWorkspace Sample.json_Unmarshal Sample.StateVersion
                (fun _ : unit => "correlation-1"%string) (fun _ : unit => tt)
                (fun id => ("tf:" ++ id ++ ":")%string) "deprovision"
                (SampleFaults.broker [1; 1; 4]%Z) tt "old" SampleBroker.details
                SampleFaults.world (SampleFaults.row "old")
                SampleBroker.definition (Sample.provider [1; 1; 4]%Z)
                (fun _ _ _ _ => Ok None)
                {| ID := "tf:old:"; TFWorkspace := [0; 12; 21]%Z;
                   LastOperationType := "update"; LastOperationState := "succeeded";
                   LastOperationMessage := "great" |}
                [0; 12; 21]%Z) as W.
  cbn zeta in W.
  destruct W as (Hres & Hinst & Hreq);
    [reflexivity | reflexivity | reflexivity | reflexivity | reflexivity | reflexivity
     | reflexivity |].
  cbn zeta. unfold SampleFaults.Deprovision. rewrite Hres, Hinst, Hreq.
  repeat split.
Defined.

(** ** More on the codec *)

Section EncodeProperties.
Context {E : Type} `{Encryptor E}.
Context {A : Type} (json_Marshal : A -> result bytes).
Context (json_Unmarshal : bytes -> A -> A * option error).

(** X8: what [encodeJSON] stored, [decodeJSON] reads back: when the
    encryptor decrypts the ciphertext of the marshalled bytes to those bytes,
    the bytes are not empty and [json.Unmarshal] reads them as the value they
    were marshalled from, decoding the encoding of [a] gives [a] and no
    error, whatever the receiver held. *)
Theorem encodeJSON_decodeJSON_roundtrip (s : E) (a receiver : A) (b c : bytes) :
  json_Marshal a = Ok b ->
  length b <> 0 ->
  Encrypt s b = Ok c ->
  Decrypt s c = Ok b ->
  json_Unmarshal b receiver = (a, None) ->
  encodeJSON json_Marshal s a = Ok c
  /\ decodeJSON json_Unmarshal s c receiver = (a, None).
Proof.
  intros Hm Hlen He Hd Hu. split.
  - unfold encodeJSON, encodeBytes. now rewrite Hm, He.
  - unfold decodeJSON. rewrite (decodeBytes_Ok _ _ _ Hd).
    destruct (Nat.eqb_spec (length b) 0); [contradiction |]. now rewrite Hu.
Qed.

(** X9: an error of [decodeJSON] is one of two: the decryption error,
    wrapping the encryptor's, with the receiver left as it was and
    [json.Unmarshal] not consulted; or the JSON parse error, wrapping the one
    of [json.Unmarshal], on decrypted bytes that are not empty.  In both the
    cause is reached by [errors.Is]. *)
Theorem decodeJSON_error_cases (s : E) (a : bytes) (receiver receiver' : A) (e : error) :
  decodeJSON json_Unmarshal s a receiver = (receiver', Some e) ->
  (exists cause,
      Decrypt s a = Err cause
      /\ e = Errorf "decryption error: %w" [AError cause]
      /\ receiver' = receiver
      /\ errors_Is e cause)
  \/ (exists b cause,
        Decrypt s a = Ok b
        /\ length b <> 0
        /\ json_Unmarshal b receiver = (receiver', Some cause)
        /\ e = Errorf "JSON parse error: %w" [AError cause]
        /\ errors_Is e cause).
Proof.
  unfold decodeJSON, decodeBytes. intros Hdec.
  destruct (Decrypt s a) as [b | cause] eqn:Hd.
  - right. destruct (Nat.eqb_spec (length b) 0); [discriminate |].
    destruct (json_Unmarshal b receiver) as [r [cause |]] eqn:Hu; [| discriminate].
    injection Hdec as <- <-. exists b, cause. repeat split; try assumption.
    eapply Is_unwrap; [reflexivity | apply Is_here].
  - left. injection Hdec as <- <-. exists cause. repeat split.
    eapply Is_unwrap; [reflexivity | apply Is_here].
Qed.

(** X10: an error of [encodeJSON] is one of two: the JSON marshal error,
    wrapping the one of [json.Marshal], the encryptor not being called; or
    the encryption error, wrapping the encryptor's.  In both the cause is
    reached by [errors.Is]. *)
Theorem encodeJSON_error_cases (s : E) (a : A) (e : error) :
  encodeJSON json_Marshal s a = Err e ->
  (exists cause,
      json_Marshal a = Err cause
      /\ e = Errorf "JSON marshal error: %w" [AError cause]
      /\ errors_Is e cause)
  \/ (exists b cause,
        json_Marshal a = Ok b
        /\ Encrypt s b = Err cause
        /\ e = Errorf "encryption error: %w" [AError cause]
        /\ errors_Is e cause).
Proof.
  unfold encodeJSON, encodeBytes. intros Henc.
  destruct (json_Marshal a) as [b | cause] eqn:Hm.
  - right. destruct (Encrypt s b) as [c | cause] eqn:He; [discriminate |].
    injection Henc as <-. exists b, cause. repeat split; try assumption.
    eapply Is_unwrap; [reflexivity | apply Is_here].
  - left. injection Henc as <-. exists cause. repeat split.
    eapply Is_unwrap; [reflexivity | apply Is_here].
Qed.

End EncodeProperties.

(** A workspace of the sample store through the no-op encryptor. *)
Lemma encodeJSON_decodeJSON_roundtrip_witness :
  encodeJSON SampleFaults.json_Marshal noopencryptor.New [1; 1; 4]%Z = Ok [x01; x01; x04]
  /\ decodeJSON Sample.json_Unmarshal noopencryptor.New [x01; x01; x04] Sample.zeroWorkspace
     = ([1; 1; 4]%Z, None).
Proof.
  apply (encodeJSON_decodeJSON_roundtrip SampleFaults.json_Marshal Sample.json_Unmarshal
           noopencryptor.New [1; 1; 4]%Z Sample.zeroWorkspace [x01; x01; x04] [x01; x01; x04]);
    [reflexivity | discriminate | reflexivity | reflexivity | reflexivity].
Defined.

(** The blob the tests' encryptor refuses to decrypt. *)
Lemma decodeJSON_error_cases_witness :
  decodeJSON Sample.json_Unmarshal storagefakes.TestEncryptor
             (list_byte_of_string "cannot-be-decrypted") Sample.zeroWorkspace
  = (Sample.zeroWorkspace,
     Some (Errorf "decryption error: %w" [AError (errors_New "fake decryption error")]))
  /\ errors_Is (Errorf "decryption error: %w" [AError (errors_New "fake decryption error")])
               (errors_New "fake decryption error").
Proof.
  assert (Hrun : decodeJSON Sample.json_Unmarshal storagefakes.TestEncryptor
                   (list_byte_of_string "cannot-be-decrypted") Sample.zeroWorkspace
                 = (Sample.zeroWorkspace,
                    Some (Errorf "decryption error: %w"
                                 [AError (errors_New "fake decryption error")])))
    by reflexivity.
  split; [exact Hrun |].
  destruct (decodeJSON_error_cases Sample.json_Unmarshal storagefakes.TestEncryptor
              _ _ _ _ Hrun) as [(cause & Hd & He & _ & His) | (b & cause & Hd & _)].
  - injection He as <-. exact His.
  - discriminate Hd.
Defined.

(** The plaintext the tests' encryptor refuses to encrypt. *)
Lemma encodeJSON_error_cases_witness :
  encodeJSON (fun s : string => Ok (list_byte_of_string s)) storagefakes.TestEncryptor
             "cannot-be-encrypted"
  = Err (Errorf "encryption error: %w" [AError (errors_New "fake encryption error")])
  /\ errors_Is (Errorf "encryption error: %w" [AError (errors_New "fake encryption error")])
               (errors_New "fake encryption error").
Proof.
  assert (Hrun : encodeJSON (fun s : string => Ok (list_byte_of_string s))
                   storagefakes.TestEncryptor "cannot-be-encrypted"
                 = Err (Errorf "encryption error: %w"
                               [AError (errors_New "fake encryption error")]))
    by reflexivity.
  split; [exact Hrun |].
  destruct (encodeJSON_error_cases (fun s : string => Ok (list_byte_of_string s))
              storagefakes.TestEncryptor _ _ Hrun)
    as [(cause & Hm & _) | (b & cause & _ & _ & He & His)].
  - discriminate Hm.
  - injection He as <-. exact His.
Defined.

(** ** Catalog lookups *)

Section CatalogProperties.
Import brokerpaktestframework.

Lemma eqb_false_ne (a b : string) : String.eqb a b = false -> a <> b.
Proof. intros Hf. now apply String.eqb_neq. Qed.

Lemma FindService_none (catalog : CatalogResponse) (s : string) :
  Forall (fun x => service_Name x <> s) (Services catalog) ->
  FindService catalog s = zeroService.
Proof.
  unfold FindService. destruct catalog as [services]. cbn.
  induction 1 as [| service rest Hne _ IH]; [reflexivity |].
  apply String.eqb_neq in Hne. now rewrite Hne.
Qed.

(** X11: [FindService] returns the first service of the catalog that has
    the name, no service before it having it; when no service has the name
    it returns the zero service, without id, name or plans. *)
Theorem FindService_first_or_zero (catalog : CatalogResponse) (s : string) :
  let found := FindService catalog s in
  (exists pre post,
      Services catalog = pre ++ found :: post
      /\ Forall (fun x => service_Name x <> s) pre
      /\ service_Name found = s)
  \/ (Forall (fun x => service_Name x <> s) (Services catalog)
      /\ found = zeroService).
Proof.
  cbn zeta. unfold FindService. destruct catalog as [services]. cbn.
  induction services as [| service rest IH].
  - right. split; [constructor | reflexivity].
  - destruct (String.eqb (service_Name service) s) eqn:Hname.
    + left. exists [], rest. repeat split; [constructor | now apply String.eqb_eq].
    + apply eqb_false_ne in Hname.
      destruct IH as [(pre & post & Heq & Hpre & Hfound) | [Hall Hzero]].
      * left. exists (service :: pre), post. rewrite Heq at 1.
        repeat split; [now constructor | exact Hfound].
      * right. split; [now constructor | exact Hzero].
Qed.

(** X12: [FindServicePlanGUIDs] looks for the plan in the service that
    [FindService] finds, and in no other: it returns the id of that service
    with the id of its first plan of that name, and two empty strings when
    that service has no plan of the name, in particular when no service of
    the catalog has the service name. *)
Theorem FindServicePlanGUIDs_first_match (catalog : CatalogResponse) (serviceName planName : string) :
  let service := FindService catalog serviceName in
  let ids := FindServicePlanGUIDs catalog serviceName planName in
  ((exists pre plan post,
       Plans service = pre ++ plan :: post
       /\ Forall (fun p => plan_Name p <> planName) pre
       /\ plan_Name plan = planName
       /\ ids = (service_ID service, plan_ID plan))
   \/ (Forall (fun p => plan_Name p <> planName) (Plans service)
       /\ ids = (EmptyString, EmptyString)))
  /\ (Forall (fun x => service_Name x <> serviceName) (Services catalog) ->
      ids = (EmptyString, EmptyString)).
Proof.
  cbn zeta.
  assert (Hplans : forall service,
    let ids := (fix loop (plans : list ServicePlan) : string * string :=
                  match plans with
                  | [] => (EmptyString, EmptyString)
                  | plan :: rest =>
                      if String.eqb (plan_Name plan) planName
                      then (service_ID service, plan_ID plan) else loop rest
                  end) (Plans service) in
    (exists pre plan post,
        Plans service = pre ++ plan :: post
        /\ Forall (fun p => plan_Name p <> planName) pre
        /\ plan_Name plan = planName
        /\ ids = (service_ID service, plan_ID plan))
    \/ (Forall (fun p => plan_Name p <> planName) (Plans service)
        /\ ids = (EmptyString, EmptyString))).
  { intros service. cbn zeta. induction (Plans service) as [| plan rest IH].
    - right. split; [constructor | reflexivity].
    - destruct (String.eqb (plan_Name plan) planName) eqn:Hname.
      + left. exists [], plan, rest. repeat split; [constructor | now apply String.eqb_eq].
      + apply eqb_false_ne in Hname.
        destruct IH as [(pre & p & post & Heq & Hpre & Hp & Hids) | [Hall Hnone]].
        * left. exists (plan :: pre), p, post. subst rest.
          repeat split; [now constructor | exact Hp | exact Hids].
        * right. split; [now constructor | exact Hnone]. }
  split; [apply Hplans |].
  intros Hnone. unfold FindServicePlanGUIDs.
  now rewrite (FindService_none catalog serviceName Hnone).
Qed.

End CatalogProperties.

(** ** Reading a brokerpak *)

Section ReaderProperties.
Import reader.
Context (plat_Os plat_Arch : string).
Context (path_Join : list string -> string).

Lemma found_filter (prefix : string) (files found : list string) :
  fold_left (fun found f => if String.prefix prefix f then found ++ [f] else found) files found
  = found ++ List.filter (String.prefix prefix) files.
Proof.
  revert found. induction files as [| f files IH]; intros found; cbn.
  - now rewrite app_nil_r.
  - rewrite IH. destruct (String.prefix prefix f); [| reflexivity].
    now rewrite <- app_assoc.
Qed.

Lemma filter_singleton {A} (p : A -> bool) (l : list A) (x : A) :
  List.filter p l = [x] <->
  exists l1 l2, l = l1 ++ x :: l2 /\ p x = true
                /\ Forall (fun y => p y = false) l1 /\ Forall (fun y => p y = false) l2.
Proof.
  split.
  - induction l as [| y l IH]; cbn; [discriminate |].
    destruct (p y) eqn:Hy.
    + intros [= -> Hrest]. exists [], l. repeat split; [exact Hy | constructor |].
      clear -Hrest. induction l as [| z l IH]; [constructor |].
      cbn in Hrest. destruct (p z) eqn:Hz; [discriminate |]. constructor; auto.
    + intros Hf. destruct (IH Hf) as (l1 & l2 & -> & Hx & H1 & H2).
      exists (y :: l1), l2. repeat split; auto.
  - intros (l1 & l2 & -> & Hx & H1 & H2).
    assert (Hnil : forall l, Forall (fun y => p y = false) l -> List.filter p l = []).
    { induction 1 as [| z l Hz _ IH]; cbn; [reflexivity | now rewrite Hz]. }
    rewrite List.filter_app. cbn. now rewrite Hx, (Hnil _ H1), (Hnil _ H2).
Qed.

(** X13: [findFileInZip] succeeds exactly when one file of the pack, and
    only one, has a name that starts with [bin/<os>/<arch>/<name>]; it then
    returns that name.  With no such file it reports that none was found,
    with several it reports them all, in the order of the pack. *)
Theorem findFileInZip_unique_match (pak : BrokerPakReader) (name : string) :
  let prefix := path_Join ["bin"; plat_Os; plat_Arch; name] in
  let matching := List.filter (String.prefix prefix) (contents_List pak) in
  (forall f,
     findFileInZip plat_Os plat_Arch path_Join pak name = Ok f <->
     exists l1 l2,
       contents_List pak = l1 ++ f :: l2
       /\ String.prefix prefix f = true
       /\ Forall (fun g => String.prefix prefix g = false) l1
       /\ Forall (fun g => String.prefix prefix g = false) l2)
  /\ (matching = [] ->
      findFileInZip plat_Os plat_Arch path_Join pak name
      = Err (Errorf "file with prefix %q not found in zip" [AString prefix]))
  /\ (2 <= length matching ->
      findFileInZip plat_Os plat_Arch path_Join pak name
      = Err (Errorf "multiple files found with prefix %q: %s"
                    [AString prefix; AString (String.concat ", " matching)])).
Proof.
  cbn zeta. unfold findFileInZip. rewrite found_filter. cbn [app].
  set (prefix := path_Join ["bin"; plat_Os; plat_Arch; name]).
  set (matching := List.filter (String.prefix prefix) (contents_List pak)).
  split; [| split].
  - intros f. rewrite <- filter_singleton. fold matching.
    destruct matching as [| g [| g' rest]]; split; intros Heq; try discriminate.
    + now injection Heq as ->.
    + now injection Heq as ->.
  - now intros ->.
  - destruct matching as [| g [| g' rest]]; cbn; intros Hlen; [lia | lia | reflexivity].
Qed.

(** [fileExistsInZip] says whether the pack lists the path. *)
Lemma fileExistsInZip_In (pak : BrokerPakReader) (path : string) :
  fileExistsInZip pak path = true <-> In path (contents_List pak).
Proof.
  unfold fileExistsInZip. induction (contents_List pak) as [| f rest IH]; cbn.
  - split; [discriminate | contradiction].
  - destruct (String.eqb_spec f path) as [-> | Hne].
    + split; auto.
    + rewrite IH. split; [auto | intros [Heq | Hin]; [contradiction | exact Hin]].
Qed.

End ReaderProperties.

(** ** Registering brokerpaks *)

Section RegistrarProperties.
Import brokerpak.
Context {Other Executor BrokerDefinition V : Type}.
Context (ToService : @TfServiceDefinitionV1 Other -> Executor -> result BrokerDefinition).
Context (cast_ToString : V -> string).

Lemma Contains_In (items : list string) (item : string) :
  Contains (NewStringSet items) item = bool_decide (item ∈ items).
Proof.
  unfold Contains, NewStringSet. apply bool_decide_ext.
  apply elem_of_list_to_set.
Qed.

(** X14: [toDefinitions] converts the services that are not excluded, in
    their order, each under its prefixed name, and no other: on success the
    result holds exactly their conversions, in order; on failure the error
    is that of the first of them that does not convert, the ones before it
    having converted.  An excluded service is never converted, so it cannot
    make the registration fail. *)
Theorem toDefinitions_converts_kept_services
    (services : list (@TfServiceDefinitionV1 Other))
    (config : BrokerpakSourceConfig) (executor : Executor) :
  match toDefinitions ToService services config executor with
  | Ok out =>
      Forall2 (fun svc bs => ToService svc executor = Ok bs) (converted services config) out
  | Err err =>
      exists before svc after,
        converted services config = before ++ svc :: after
        /\ ToService svc executor = Err err
        /\ Forall (fun s => exists bs, ToService s executor = Ok bs) before
  end.
Proof.
  unfold toDefinitions.
  set (loop := fix loop (services : list TfServiceDefinitionV1) (out : list BrokerDefinition) := _).
  assert (Hloop : forall services out,
    match loop services out with
    | Ok out' =>
        exists more, out' = out ++ more
          /\ Forall2 (fun svc bs => ToService svc executor = Ok bs) (converted services config) more
    | Err err =>
        exists before svc after,
          converted services config = before ++ svc :: after
          /\ ToService svc executor = Err err
          /\ Forall (fun s => exists bs, ToService s executor = Ok bs) before
    end).
  { clear services. induction services as [| svc rest IH]; intros out.
    - cbn. exists []. split; [now rewrite app_nil_r | constructor].
    - cbn [loop]. fold loop. rewrite Contains_In. unfold converted. cbn [List.filter].
      destruct (bool_decide (Id svc ∈ ExcludedServicesSlice config)); cbn [negb].
      + apply IH.
      + cbn [map].
        set (svc' := {| Id := Id svc; svc_Name := ServicePrefix config ++ svc_Name svc;
                        svc_Other := svc_Other svc |}).
        destruct (ToService svc' executor) as [bs | err] eqn:Hconv.
        * specialize (IH (out ++ [bs])).
          destruct (loop rest (out ++ [bs])) as [out' | err].
          -- destruct IH as (more & -> & Hall). exists (bs :: more).
             split; [now rewrite <- app_assoc | now constructor].
          -- destruct IH as (before & s & after & Heq & Herr & Hbefore).
             exists (svc' :: before), s, after. unfold converted in Heq. rewrite Heq.
             repeat split; [exact Herr | constructor; eauto].
        * exists [], svc', (converted rest config). repeat split; [exact Hconv | constructor]. }
  specialize (Hloop services []).
  destruct (loop services []) as [out | err]; [| exact Hloop].
  now destruct Hloop as (more & -> & Hall).
Qed.

Lemma resolve_fold (params : list ManifestParameter) (vc : gmap string V)
    (out : gmap string string) (name : string) :
  fold_left
    (fun out p =>
       match vc !! param_Name p with
       | Some val => <[param_Name p := cast_ToString val]> out
       | None => out
       end) params out !! name
  = if bool_decide (name ∈ map param_Name params)
    then match vc !! name with
         | Some val => Some (cast_ToString val)
         | None => out !! name
         end
    else out !! name.
Proof.
  revert out. induction params as [| p params IH]; intros out; [reflexivity |].
  cbn [fold_left map]. rewrite IH.
  destruct (decide (param_Name p = name)) as [<- | Hne].
  - rewrite (bool_decide_eq_true_2 (_ ∈ _ :: _)) by now left.
    destruct (vc !! param_Name p) as [val |] eqn:Hval.
    + destruct (bool_decide _); [reflexivity | apply lookup_insert_eq].
    + now destruct (bool_decide _).
  - assert (Hiff : name ∈ param_Name p :: map param_Name params
                   <-> name ∈ map param_Name params).
    { rewrite elem_of_cons. split; [intros [Heq | Hin]; [congruence | exact Hin] | now right]. }
    rewrite (bool_decide_ext _ _ Hiff).
    destruct (vc !! param_Name p) as [val |]; [| reflexivity].
    now rewrite lookup_insert_ne.
Qed.

(** X15: [resolveParameters] resolves exactly the declared parameters that
    the context has: a name is in the result if and only if some parameter
    has it and the context has a value for it, and it then maps to that
    value as a string.  Nothing else of the context gets into the result. *)
Theorem resolveParameters_lookup (params : list ManifestParameter) (vc : gmap string V)
    (name : string) :
  resolveParameters cast_ToString params vc !! name
  = if bool_decide (name ∈ map param_Name params)
    then cast_ToString <$> vc !! name
    else None.
Proof.
  unfold resolveParameters. rewrite resolve_fold, lookup_empty.
  destruct (bool_decide _); [| reflexivity]. now destruct (vc !! name).
Qed.

End RegistrarProperties.

(** ** The order of strings *)

Lemma compare_refl (s : string) : String.compare s s = Eq.
Proof.
  induction s as [| c s IH]; [reflexivity |]. cbn.
  unfold Ascii.compare. now rewrite N.compare_refl.
Qed.

Lemma compare_Lt_trans (a b c : string) :
  String.compare a b = Lt -> String.compare b c = Lt -> String.compare a c = Lt.
Proof.
  revert b c. induction a as [| x a IH]; intros [| y b] [| z c]; cbn; try easy.
  unfold Ascii.compare.
  destruct (N.compare_spec (N_of_ascii x) (N_of_ascii y)) as [Hxy | Hxy | Hxy];
    destruct (N.compare_spec (N_of_ascii y) (N_of_ascii z)) as [Hyz | Hyz | Hyz];
    try easy.
  - rewrite Hxy, Hyz, N.compare_refl. apply IH.
  - intros _ _. rewrite Hxy. now apply N.compare_lt_iff in Hyz as ->.
  - intros _ _. rewrite <- Hyz. now apply N.compare_lt_iff in Hxy as ->.
  - intros _ _. assert (Hxz : (N_of_ascii x < N_of_ascii z)%N) by lia.
    now apply N.compare_lt_iff in Hxz as ->.
Qed.

Lemma leb_compare (a b : string) :
  String.leb a b = true <-> String.compare a b = Lt \/ a = b.
Proof.
  unfold String.leb. destruct (String.compare a b) eqn:Hc.
  - apply String.compare_eq_iff in Hc. tauto.
  - tauto.
  - split; [discriminate |]. intros [Hlt | ->]; [discriminate |].
    rewrite compare_refl in Hc. discriminate.
Qed.

#[global] Instance stringLe_refl : Reflexive stringLe.
Proof. intros s. apply leb_compare. now right. Qed.

#[global] Instance stringLe_trans : Transitive stringLe.
Proof.
  intros a b c Hab Hbc. unfold stringLe in *. rewrite leb_compare in *.
  destruct Hab as [Hab | ->]; [| exact Hbc].
  destruct Hbc as [Hbc | ->]; [| now left].
  left. eapply compare_Lt_trans; eassumption.
Qed.

#[global] Instance stringLe_total : Total stringLe.
Proof. intros a b. apply String.leb_total. Qed.

#[global] Instance stringLe_antisym : AntiSymm (=) stringLe.
Proof. intros a b. apply String.leb_antisym. Qed.

Lemma sortStrings_Sorted (l : list string) : StronglySorted stringLe (sortStrings l).
Proof. apply (StronglySorted_merge_sort stringLe). Qed.

Lemma sortStrings_Permutation (l : list string) : sortStrings l ≡ₚ l.
Proof. apply (merge_sort_Permutation stringLe). Qed.

Lemma sortStrings_unique (l sorted : list string) :
  StronglySorted stringLe sorted -> sorted ≡ₚ l -> sorted = sortStrings l.
Proof.
  intros Hs Hp. apply (StronglySorted_unique stringLe); [exact Hs | apply sortStrings_Sorted |].
  now rewrite Hp, sortStrings_Permutation.
Qed.

(** ** Field errors *)

Section FieldErrorProperties.
Import validation.

Lemma containsString_elem_of (slice : list string) (s : string) :
  containsString slice s = true <-> s ∈ slice.
Proof.
  unfold containsString. induction slice as [| item rest IH]; cbn.
  - split; [discriminate | intros Hin; inversion Hin].
  - rewrite elem_of_cons. destruct (String.eqb_spec item s) as [-> | Hne].
    + split; auto.
    + rewrite IH. split; [auto | intros [Heq | Hin]; [congruence | exact Hin]].
Qed.

Lemma mergePaths_fold (a b : list string) :
  exists added,
    mergePaths a b = a ++ added
    /\ NoDup added
    /\ (forall x, x ∈ added <-> x ∈ b /\ x ∉ a).
Proof.
  unfold mergePaths. revert a. induction b as [| bi b IH]; intros a; cbn.
  - exists []. rewrite app_nil_r. split; [reflexivity | split; [constructor |]].
    intros x. split; [intros Hin; inversion Hin | intros [Hin _]; inversion Hin].
  - destruct (containsString a bi) eqn:Hc; cbn.
    + apply containsString_elem_of in Hc.
      destruct (IH a) as (added & -> & Hnd & Hin). exists added.
      split; [reflexivity | split; [exact Hnd |]].
      intros x. rewrite Hin, elem_of_cons. split; [tauto |].
      intros [[-> | Hb] Ha]; [contradiction | tauto].
    + assert (Hnot : bi ∉ a).
      { intros Hin. apply containsString_elem_of in Hin. congruence. }
      destruct (IH (a ++ [bi])) as (added & -> & Hnd & Hin). exists (bi :: added).
      rewrite <- app_assoc. split; [reflexivity | split].
      * constructor; [| exact Hnd]. intros Hx. apply Hin in Hx as [_ Hx].
        apply Hx. apply elem_of_app. right. now left.
      * intros x. rewrite !elem_of_cons, Hin, elem_of_app, list_elem_of_singleton.
        destruct (decide (x = bi)) as [-> | Hne]; tauto.
Qed.


Lemma isEmpty_zero (e : FieldError) : isEmpty (Some e) = true -> e = zero.
Proof.
  destruct e as [m p d es]. cbn. intros He.
  repeat (apply andb_prop in He as [He ?]).
  apply String.eqb_eq in He. subst.
  match goal with H : String.eqb d _ = true |- _ => apply String.eqb_eq in H; subst end.
  destruct es; [| discriminate]. destruct p; [| discriminate]. reflexivity.
Qed.

Lemma isEmpty_normalized (e : option FieldError) : isEmpty e = true -> normalized e = [].
Proof.
  destruct e as [e |]; [| reflexivity]. intros He. now rewrite (isEmpty_zero e He).
Qed.

Lemma collect_normalized (newErr : FieldError) (errs : list (option FieldError)) :
  normalizedValue (collect newErr errs) = normalizedValue newErr ++ flat_map normalized errs.
Proof.
  unfold collect. revert newErr. induction errs as [| e errs IH]; intros newErr; cbn.
  - now rewrite app_nil_r.
  - rewrite IH. destruct e as [e' |]; [| reflexivity].
    destruct (isEmpty (Some e')) eqn:He; cbn [negb].
    + now rewrite (isEmpty_normalized _ He).
    + destruct newErr as [m p d es]. cbn. rewrite flat_map_app. cbn.
      now rewrite app_nil_r, <- !app_assoc.
Qed.

Lemma collect_fields (newErr : FieldError) (errs : list (option FieldError)) :
  Message (collect newErr errs) = Message newErr
  /\ Paths (collect newErr errs) = Paths newErr
  /\ Details (collect newErr errs) = Details newErr
  /\ errors (collect newErr errs)
     = errors newErr ++ omap (fun e => if isEmpty e then None else e) errs.
Proof.
  unfold collect. revert newErr. induction errs as [| e errs IH]; intros newErr; cbn.
  - now rewrite app_nil_r.
  - destruct (IH (match e with
                  | Some e' =>
                      if negb (isEmpty e)
                      then Build_FieldError (Message newErr) (Paths newErr) (Details newErr)
                                            (errors newErr ++ [e'])
                      else newErr
                  | None => newErr
                  end)) as (Hm & Hp & Hd & Hes).
    rewrite Hm, Hp, Hd, Hes.
    destruct e as [e' |]; [| now repeat split].
    destruct (isEmpty (Some e')); cbn [negb]; [now repeat split |].
    cbn. now rewrite <- app_assoc.
Qed.

Lemma Also_collect (e : option FieldError) (errs : list (option FieldError)) :
  Also e errs
  = let newErr := collect (if negb (isEmpty e) then default zero (DeepCopy e) else zero) errs in
    if isEmpty (Some newErr) then None else Some newErr.
Proof. reflexivity. Qed.

Lemma normalized_Also (e : option FieldError) (errs : list (option FieldError)) :
  normalized (Also e errs) = normalized e ++ flat_map normalized errs.
Proof.
  rewrite Also_collect. cbn zeta.
  set (start := if negb (isEmpty e) then default zero (DeepCopy e) else zero).
  assert (Hstart : normalizedValue start = normalized e).
  { unfold start. destruct (isEmpty e) eqn:He; cbn [negb].
    - now rewrite (isEmpty_normalized _ He).
    - destruct e; [reflexivity | discriminate]. }
  rewrite <- Hstart, <- collect_normalized.
  destruct (isEmpty (Some (collect start errs))) eqn:Hres; [| reflexivity].
  now rewrite (isEmpty_zero _ Hres).
Qed.

(** X17: the leaves of [e.Also(errs...)] are the leaves of [e] followed by
    those of each of [errs], in order; nil and empty errors add none. *)
Theorem Also_normalized (e : option FieldError) (errs : list (option FieldError)) :
  normalized (Also e errs) = normalized e ++ flat_map normalized errs.
Proof. apply normalized_Also. Qed.

(** X18: [Also] returns nil exactly when the receiver and all the errors
    given are nil or empty; what it returns otherwise is not empty, keeps
    the receiver's message, paths and details, and has the receiver's
    sub-errors followed by the non-empty errors given, in order. *)
Theorem Also_nil_iff_all_empty (e : option FieldError) (errs : list (option FieldError)) :
  (Also e errs = None <-> isEmpty e = true /\ Forall (fun x => isEmpty x = true) errs)
  /\ (forall r, Also e errs = Some r ->
        isEmpty (Some r) = false
        /\ Message r = Message (default zero e)
        /\ Paths r = Paths (default zero e)
        /\ Details r = Details (default zero e)
        /\ errors r = errors (default zero e)
                      ++ omap (fun x => if isEmpty x then None else x) errs).
Proof.
  rewrite Also_collect. cbn zeta.
  set (start := if negb (isEmpty e) then default zero (DeepCopy e) else zero).
  assert (Hstart : start = default zero e).
  { unfold start. destruct (isEmpty e) eqn:He; cbn [negb]; [| reflexivity].
    destruct e as [e' |]; [| reflexivity]. cbn. symmetry. now apply isEmpty_zero. }
  destruct (collect_fields start errs) as (Hm & Hp & Hd & Hes).
  assert (Hkept : omap (fun x => if isEmpty x then None else x) errs = []
                  <-> Forall (fun x => isEmpty x = true) errs).
  { clear. induction errs as [| x errs IH]; cbn; [split; auto |].
    destruct (isEmpty x) eqn:Hx.
    - rewrite IH. split; [now constructor | now inversion 1].
    - destruct x as [x' |]; [| discriminate]. cbn.
      split; [discriminate | inversion 1; congruence]. }
  split.
  - destruct (isEmpty (Some (collect start errs))) eqn:Hres.
    + split; [intros _ | reflexivity].
      apply isEmpty_zero in Hres. rewrite Hres in Hm, Hp, Hd, Hes. cbn in *.
      symmetry in Hes. apply app_eq_nil in Hes as [Hes1 Hes2].
      split; [| now apply Hkept].
      destruct e as [e' |]; [| reflexivity]. rewrite Hstart in *. cbn in *.
      destruct e' as [m p d es]. cbn in *. subst. reflexivity.
    + split; [discriminate |]. intros [He Hall]. exfalso.
      apply Hkept in Hall.
      assert (Hz : start = zero).
      { rewrite Hstart. destruct e as [e' |]; [now apply isEmpty_zero | reflexivity]. }
      assert (Hc : collect start errs = zero).
      { destruct (collect start errs) as [m p d es]. cbn in *.
        rewrite Hz, Hall in *. cbn in *. now subst. }
      rewrite Hc in Hres. discriminate.
  - intros r. destruct (isEmpty (Some (collect start errs))) eqn:Hres; [discriminate |].
    intros [= <-]. rewrite <- Hstart. auto.
Qed.

End FieldErrorProperties.

(** ** Splitting and joining *)

Lemma append_nil_r (s : string) : (s ++ EmptyString)%string = s.
Proof. induction s as [| c s IH]; [reflexivity |]. change (String c (s ++ EmptyString)%string = String c s). now rewrite IH. Qed.

Lemma append_assoc (a b c : string) : ((a ++ b) ++ c)%string = (a ++ b ++ c)%string.
Proof.
  induction a as [| x a IH]; [reflexivity |].
  change (String x ((a ++ b) ++ c)%string = String x (a ++ b ++ c)%string). now rewrite IH.
Qed.

Lemma append_eq_nil (a b : string) : (a ++ b)%string = EmptyString -> a = EmptyString /\ b = EmptyString.
Proof. destruct a; [auto | discriminate]. Qed.

Lemma strings_Split_not_nil (s : string) (sep : ascii) : strings_Split s sep <> [].
Proof.
  destruct s as [| c s]; cbn; [discriminate |].
  destruct (Ascii.eqb c sep); [discriminate |].
  destruct (strings_Split s sep); discriminate.
Qed.

(** Joining what was split gives the string back. *)
Lemma strings_Join_Split (s : string) (sep : ascii) :
  strings_Join (strings_Split s sep) (String sep EmptyString) = s.
Proof.
  unfold strings_Join. induction s as [| c s IH]; [reflexivity |]. cbn [strings_Split].
  destruct (Ascii.eqb_spec c sep) as [-> | Hne].
  - pose proof (strings_Split_not_nil s sep) as Hnn.
    destruct (strings_Split s sep) as [| first more]; [contradiction |].
    cbn [String.concat]. cbn. now rewrite <- IH.
  - pose proof (strings_Split_not_nil s sep) as Hnn.
    destruct (strings_Split s sep) as [| first more]; [contradiction |].
    destruct more as [| second more]; cbn in *; now rewrite <- IH.
Qed.

Lemma strings_Split_dotFree (p : string) :
  validation.dotFree p = true -> strings_Split p "." = [p].
Proof.
  unfold validation.dotFree. induction p as [| c p IH]; cbn; [reflexivity |].
  intros Hd. apply andb_prop in Hd as [Hc Hp]. apply negb_true_iff in Hc.
  rewrite Hc, (IH Hp). reflexivity.
Qed.

Lemma strings_Split_pieces_dotFree (s : string) :
  Forall (fun p => validation.dotFree p = true) (strings_Split s ".").
Proof.
  unfold validation.dotFree. induction s as [| c s IH]; cbn; [repeat constructor |].
  destruct (Ascii.eqb c ".") eqn:Hc.
  - constructor; [reflexivity | exact IH].
  - destruct (strings_Split s ".") as [| first more]; [repeat constructor; cbn; now rewrite Hc |].
    inversion IH as [| ? ? Hfirst Hmore]; subst.
    constructor; [cbn; now rewrite Hc, Hfirst | exact Hmore].
Qed.

Lemma strings_Join_snoc (l : list string) (p sep : string) :
  l <> [] -> strings_Join (l ++ [p]) sep = (strings_Join l sep ++ sep ++ p)%string.
Proof.
  unfold strings_Join. induction l as [| x l IH]; [contradiction |]. intros _.
  destruct l as [| y l]; [reflexivity |].
  change ((x :: y :: l) ++ [p]) with (x :: ((y :: l) ++ [p])).
  cbn [String.concat app]. cbn [String.concat app] in IH.
  rewrite IH by discriminate. now rewrite !append_assoc.
Qed.

Lemma strings_Join_alter_last (l : list string) (p sep : string) :
  l <> [] ->
  strings_Join (alter (fun last => (last ++ p)%string) (length l - 1) l) sep
  = (strings_Join l sep ++ p)%string.
Proof.
  unfold strings_Join. induction l as [| x l IH]; [contradiction |]. intros _.
  destruct l as [| y l]; [reflexivity |].
  replace (length (x :: y :: l) - 1) with (S (length (y :: l) - 1)) by (cbn; lia).
  cbn [alter list_alter]. 
  change (list_alter (fun last => (last ++ p)%string) (length (y :: l) - 1) (y :: l))
    with (alter (fun last => (last ++ p)%string) (length (y :: l) - 1) (y :: l)).
  assert (Hshape : exists z l', alter (fun last => (last ++ p)%string) (length (y :: l) - 1) (y :: l) = z :: l').
  { destruct l; cbn; eauto. }
  destruct Hshape as (z & l' & Hz). specialize (IH ltac:(discriminate)).
  rewrite Hz in *. cbn [String.concat] in *. rewrite IH. now rewrite !append_assoc.
Qed.

(** ** Flattening paths *)

Section FlattenProperties.
Import validation.

Lemma flatten_process (path : list string) :
  flatten path = strings_Join (process path []) ".".
Proof. reflexivity. Qed.

Lemma process_app (p1 p2 newPath : list string) :
  process (p1 ++ p2) newPath = process p2 (process p1 newPath).
Proof. unfold process. apply fold_left_app. Qed.

Lemma process_pieces (pieces newPath : list string) :
  Forall (fun p => dotFree p = true) pieces ->
  process pieces newPath = fold_left flattenStep pieces newPath.
Proof.
  intros Hall. revert newPath. induction Hall as [| p pieces Hp _ IH]; intros newPath.
  - reflexivity.
  - unfold process in *. cbn [fold_left]. rewrite (strings_Split_dotFree p Hp). cbn [fold_left].
    apply IH.
Qed.

Lemma flattenStep_nonempty (newPath : list string) (p : string) :
  Forall (fun c => c <> EmptyString) newPath ->
  Forall (fun c => c <> EmptyString) (flattenStep newPath p).
Proof.
  intros Hall. unfold flattenStep.
  destruct (String.eqb_spec p CurrentField) as [| Hne]; [exact Hall |].
  destruct ((0 <? length newPath)%nat && isIndex p).
  - apply Forall_alter; [exact Hall |]. intros last _ _ Hlast.
    apply append_eq_nil in Hlast as [_ Hp]. now apply Hne.
  - apply Forall_app. split; [exact Hall | now repeat constructor].
Qed.

Lemma process_nonempty (path newPath : list string) :
  Forall (fun c => c <> EmptyString) newPath ->
  Forall (fun c => c <> EmptyString) (process path newPath).
Proof.
  unfold process. revert newPath. induction path as [| part path IH]; intros newPath Hall.
  - exact Hall.
  - cbn [fold_left]. apply IH. clear IH.
    revert newPath Hall. induction (strings_Split part ".") as [| p ps IHp]; intros newPath Hall.
    + exact Hall.
    + cbn [fold_left]. apply IHp. now apply flattenStep_nonempty.
Qed.

Lemma strings_Join_empty_iff (l : list string) (sep : string) :
  Forall (fun c => c <> EmptyString) l ->
  strings_Join l sep = EmptyString <-> l = [].
Proof.
  intros Hall. split; [| now intros ->].
  destruct Hall as [| x l Hx _]; [reflexivity |]. unfold strings_Join.
  destruct l; cbn; intros Heq; [contradiction |].
  apply append_eq_nil in Heq as [Hx' _]. contradiction.
Qed.

(** X19: how [flatten] treats a last component that holds no dot: an empty
    one is dropped; an index (in brackets) is glued onto what comes before,
    without a dot; any other is added after a dot, or stands alone when
    nothing comes before. *)
Theorem flatten_last_component (path : list string) (c : string) :
  dotFree c = true ->
  flatten (path ++ [c])
  = if String.eqb c CurrentField then flatten path
    else if isIndex c then (flatten path ++ c)%string
    else if String.eqb (flatten path) EmptyString then c
    else (flatten path ++ "." ++ c)%string.
Proof.
  intros Hc. rewrite !flatten_process, process_app.
  set (newPath := process path []).
  assert (Hne : Forall (fun c => c <> EmptyString) newPath)
    by (apply process_nonempty; constructor).
  unfold process at 1. cbn [fold_left]. rewrite (strings_Split_dotFree c Hc). cbn [fold_left].
  unfold flattenStep.
  destruct (String.eqb c CurrentField); [reflexivity |].
  pose proof (strings_Join_empty_iff newPath "." Hne) as Hempty.
  destruct newPath as [| x rest] eqn:Hpath.
  - cbn. destruct (isIndex c); reflexivity.
  - assert (Hjoin : strings_Join (x :: rest) "." <> EmptyString).
    { intros Heq. apply Hempty in Heq. discriminate. }
    apply String.eqb_neq in Hjoin. rewrite Hjoin.
    change (0 <? length (x :: rest))%nat with true. cbn [andb].
    destruct (isIndex c).
    + now apply strings_Join_alter_last.
    + now apply strings_Join_snoc.
Qed.

(** X20: a component of a path counts as its dot-separated pieces: it can
    be replaced by them, wherever it stands; an empty component, wherever it
    stands, changes nothing. *)
Theorem flatten_component_pieces (p1 p2 : list string) (c : string) :
  flatten (p1 ++ c :: p2) = flatten (p1 ++ strings_Split c "." ++ p2)
  /\ flatten (p1 ++ CurrentField :: p2) = flatten (p1 ++ p2).
Proof.
  rewrite !flatten_process.
  assert (Hpieces : forall c newPath,
    process [c] newPath = process (strings_Split c ".") newPath).
  { intros c' newPath. rewrite (process_pieces (strings_Split c' "."))
      by apply strings_Split_pieces_dotFree. reflexivity. }
  split.
  - change (c :: p2) with ([c] ++ p2). now rewrite !process_app, Hpieces.
  - change (CurrentField :: p2) with ([CurrentField] ++ p2). now rewrite !process_app.
Qed.

End FlattenProperties.

Lemma flatten_last_component_witness :
  validation.dotFree "[0]" = true
  /\ validation.flatten (["foo"; "bar"] ++ ["[0]"]) = "foo.bar[0]".
Proof.
  split; [reflexivity |].
  exact (flatten_last_component ["foo"; "bar"] "[0]" eq_refl).
Defined.

(** ** Prefixing field errors *)

Section ViaFieldProperties.
Import validation.

Lemma FieldError_nested_ind (P : FieldError -> Prop) :
  (forall m p d es, Forall P es -> P (Build_FieldError m p d es)) ->
  forall e, P e.
Proof.
  intros Hstep. fix IH 1. intros [m p d es]. apply Hstep.
  revert es. fix IHes 1. intros [| e es]; constructor; [apply IH | apply IHes].
Qed.

Lemma viaField_fold_normalized (prefix : list string) (children : list FieldError)
    (newErr : option FieldError) :
  Forall (fun child => normalized (viaField prefix child)
                       = map (prefixLeaf prefix) (normalizedValue child)) children ->
  normalized (fold_left (fun newErr e => Also newErr [viaField prefix e]) children newErr)
  = normalized newErr ++ map (prefixLeaf prefix) (flat_map normalizedValue children).
Proof.
  intros Hall. revert newErr. induction Hall as [| child children Hchild _ IH]; intros newErr.
  - cbn. now rewrite app_nil_r.
  - cbn [fold_left flat_map]. rewrite IH, normalized_Also. cbn [flat_map].
    rewrite app_nil_r, Hchild, map_app, <- app_assoc. reflexivity.
Qed.

Lemma viaField_normalized (prefix : list string) (e : FieldError) :
  normalized (viaField prefix e) = map (prefixLeaf prefix) (normalizedValue e).
Proof.
  induction e as [m p d es IH] using FieldError_nested_ind.
  cbn [viaField errors Message Paths Details].
  rewrite (viaField_fold_normalized prefix es _ IH).
  cbn [normalized normalizedValue errors Message Paths Details flat_map].
  rewrite app_nil_r, map_app. f_equal.
  destruct (String.eqb m EmptyString); reflexivity.
Qed.

(** X21: [ViaField] puts the prefix before every path of every leaf and
    changes nothing else: the leaves of [e.ViaField(prefix...)] are the
    leaves of [e], in the same order, with the same messages and details,
    each path flattened behind the prefix.  On nil it returns nil. *)
Theorem ViaField_normalized (e : option FieldError) (prefix : list string) :
  normalized (ViaField e prefix) = map (prefixLeaf prefix) (normalized e)
  /\ ViaField None prefix = None.
Proof.
  split; [| reflexivity].
  destruct e as [e |]; [apply viaField_normalized | reflexivity].
Qed.

End ViaFieldProperties.

(** ** Merging field errors *)

Section MergeProperties.
Import validation.

#[local] Instance fieldErrorLe_total : Total fieldErrorLe.
Proof.
  intros a b. unfold fieldErrorLe. rewrite (String.eqb_sym (Message b)).
  destruct (String.eqb (Message a) (Message b)); apply String.leb_total.
Qed.

Lemma fieldErrorLe_both (a b : FieldError) :
  fieldErrorLe a b -> fieldErrorLe b a -> Message a = Message b /\ Details a = Details b.
Proof.
  unfold fieldErrorLe. rewrite (String.eqb_sym (Message b)).
  destruct (String.eqb_spec (Message a) (Message b)) as [Heq | Hne]; intros Hab Hba.
  - split; [exact Heq | now apply String.leb_antisym].
  - exfalso. apply Hne. now apply String.leb_antisym.
Qed.

#[local] Instance fieldErrorLe_trans : Transitive fieldErrorLe.
Proof.
  intros a b c. unfold fieldErrorLe.
  destruct (String.eqb_spec (Message a) (Message b)) as [Hab | Hab];
    destruct (String.eqb_spec (Message b) (Message c)) as [Hbc | Hbc];
    destruct (String.eqb_spec (Message a) (Message c)) as [Hac | Hac];
    intros H1 H2; try congruence.
  all: try exact (stringLe_trans _ _ _ H1 H2).
  exfalso. apply Hab. rewrite <- Hac in H2. now apply String.leb_antisym.
Qed.

Lemma grouped_snoc (errs : list FieldError) (e : FieldError) :
  grouped (errs ++ [e]) = groupStep (grouped errs) e.
Proof. unfold grouped. now rewrite fold_left_app. Qed.

Lemma mergePaths_elem_of (a b : list string) (x : string) :
  x ∈ mergePaths a b <-> x ∈ a \/ x ∈ b.
Proof.
  destruct (mergePaths_fold a b) as (added & -> & _ & Hin).
  rewrite elem_of_app, Hin. destruct (decide (x ∈ a)); tauto.
Qed.

Lemma grouped_key (errs : list FieldError) (k : string) (v : FieldError) :
  grouped errs !! k = Some v -> key v = k.
Proof.
  revert k v. induction errs as [| e errs IH] using rev_ind; intros k v.
  - unfold grouped. cbn. now rewrite lookup_empty.
  - rewrite grouped_snoc. unfold groupStep.
    destruct (grouped errs !! key e) as [v0 |] eqn:Hlook.
    + destruct (decide (key e = k)) as [<- | Hne].
      * rewrite lookup_insert_eq. intros [= <-]. apply (IH _ _ Hlook).
      * rewrite lookup_insert_ne by exact Hne. apply IH.
    + destruct (decide (key e = k)) as [<- | Hne].
      * rewrite lookup_insert_eq. now intros [= <-].
      * rewrite lookup_insert_ne by exact Hne. apply IH.
Qed.

(** Every path of every error is under the error's key. *)
Lemma grouped_covers (errs : list FieldError) (e : FieldError) :
  e ∈ errs ->
  exists v, grouped errs !! key e = Some v /\ forall p, p ∈ Paths e -> p ∈ Paths v.
Proof.
  induction errs as [| e' errs IH] using rev_ind; [intros Hin; inversion Hin |].
  rewrite elem_of_app, list_elem_of_singleton, grouped_snoc. unfold groupStep.
  intros [Hin | Heq]; [| subst e'].
  - destruct (IH Hin) as (v & Hv & Hpaths).
    destruct (grouped errs !! key e') as [v0 |] eqn:Hlook.
    + destruct (decide (key e' = key e)) as [Heq | Hne].
      * rewrite Heq in *. rewrite lookup_insert_eq. eexists. split; [reflexivity |].
        cbn. intros p Hp. apply mergePaths_elem_of. left.
        rewrite Hv in Hlook. injection Hlook as <-. now apply Hpaths.
      * rewrite lookup_insert_ne by exact Hne. eauto.
    + destruct (decide (key e' = key e)) as [Heq | Hne].
      * rewrite Heq in Hlook. congruence.
      * rewrite lookup_insert_ne by exact Hne. eauto.
  - destruct (grouped errs !! key e) as [v0 |] eqn:Hlook.
    + rewrite lookup_insert_eq. eexists. split; [reflexivity |].
      cbn. intros p Hp. apply mergePaths_elem_of. now right.
    + rewrite lookup_insert_eq. eauto.
Qed.

(** Every entry comes from the errors of its key, and only from them. *)
Lemma grouped_sound (errs : list FieldError) (k : string) (v : FieldError) :
  grouped errs !! k = Some v ->
  (exists e, e ∈ errs /\ key e = k /\ Message v = Message e /\ Details v = Details e)
  /\ (forall p, p ∈ Paths v -> exists e, e ∈ errs /\ key e = k /\ p ∈ Paths e).
Proof.
  revert k v. induction errs as [| e' errs IH] using rev_ind; intros k v.
  - unfold grouped. cbn. now rewrite lookup_empty.
  - rewrite grouped_snoc. unfold groupStep.
    assert (Hold : forall v, grouped errs !! k = Some v ->
      (exists e, e ∈ errs ++ [e'] /\ key e = k /\ Message v = Message e /\ Details v = Details e)
      /\ (forall p, p ∈ Paths v -> exists e, e ∈ errs ++ [e'] /\ key e = k /\ p ∈ Paths e)).
    { intros v1 Hv1. destruct (IH _ _ Hv1) as [(e & He & Hk & Hm) Hp]. split.
      - exists e. rewrite elem_of_app. auto.
      - intros p Hin. destruct (Hp p Hin) as (e0 & He0 & Hk0 & Hp0).
        exists e0. rewrite elem_of_app. auto. }
    destruct (grouped errs !! key e') as [v0 |] eqn:Hlook.
    + destruct (decide (key e' = k)) as [<- | Hne].
      * rewrite lookup_insert_eq. intros [= <-]. cbn.
        destruct (Hold _ Hlook) as [Hfirst Hpaths]. split; [exact Hfirst |].
        intros p Hp. apply mergePaths_elem_of in Hp as [Hp | Hp]; [now apply Hpaths |].
        exists e'. rewrite elem_of_app, list_elem_of_singleton. auto.
      * rewrite lookup_insert_ne by exact Hne. apply Hold.
    + destruct (decide (key e' = k)) as [<- | Hne].
      * rewrite lookup_insert_eq. intros [= <-].
        split; [| intros p Hp]; exists e'; rewrite elem_of_app, list_elem_of_singleton; auto.
      * rewrite lookup_insert_ne by exact Hne. apply Hold.
Qed.

Lemma mergeRanged_finish (ranged : list (string * FieldError)) :
  mergeRanged ranged = merge_sort fieldErrorLe (map finish ranged).
Proof. reflexivity. Qed.

Lemma key_finish (kv : string * FieldError) : key (finish kv) = key kv.2.
Proof. reflexivity. Qed.

Lemma merge_elem_of (errs : list FieldError) (r : FieldError) :
  r ∈ merge errs <-> exists k v, grouped errs !! k = Some v /\ r = finish (k, v).
Proof.
  unfold merge. rewrite mergeRanged_finish, (merge_sort_Permutation fieldErrorLe).
  rewrite list_elem_of_fmap. split.
  - intros ([k v] & -> & Hin). apply elem_of_map_to_list in Hin. eauto.
  - intros (k & v & Hlook & ->). exists (k, v). split; [reflexivity |].
    now apply elem_of_map_to_list.
Qed.

Lemma finished_keys (errs : list FieldError) :
  map key (map finish (map_to_list (grouped errs))) = map fst (map_to_list (grouped errs)).
Proof.
  rewrite map_map. apply map_ext_in. intros [k v] Hin. cbn.
  apply list_elem_of_In, elem_of_map_to_list in Hin. now apply grouped_key in Hin.
Qed.

Lemma merge_keys_NoDup (errs : list FieldError) : NoDup (map key (merge errs)).
Proof.
  unfold merge. rewrite mergeRanged_finish.
  assert (Hperm : map key (merge_sort fieldErrorLe (map finish (map_to_list (grouped errs))))
                  ≡ₚ map key (map finish (map_to_list (grouped errs)))).
  { apply Permutation_map, (merge_sort_Permutation fieldErrorLe). }
  rewrite Hperm, finished_keys. apply NoDup_fst_map_to_list.
Qed.

Lemma same_fields_same_key (a b : FieldError) :
  Message a = Message b -> Details a = Details b -> key a = key b.
Proof. unfold key. now intros -> ->. Qed.

Lemma finished_inj (errs : list FieldError) (x y : FieldError) :
  x ∈ map finish (map_to_list (grouped errs)) ->
  y ∈ map finish (map_to_list (grouped errs)) ->
  fieldErrorLe x y -> fieldErrorLe y x -> x = y.
Proof.
  rewrite !list_elem_of_fmap.
  intros ([k1 v1] & -> & H1) ([k2 v2] & -> & H2) Hxy Hyx.
  apply elem_of_map_to_list in H1, H2.
  destruct (fieldErrorLe_both _ _ Hxy Hyx) as [Hm Hd]. cbn in Hm, Hd.
  assert (Hk : k1 = k2).
  { rewrite <- (grouped_key _ _ _ H1), <- (grouped_key _ _ _ H2).
    now apply same_fields_same_key. }
  subst k2. rewrite H1 in H2. now injection H2 as <-.
Qed.

Lemma strictly_sorted (l : list FieldError) :
  StronglySorted fieldErrorLe l -> NoDup (map key l) -> StronglySorted fieldErrorLt l.
Proof.
  induction 1 as [| x l Hl IH Hx]; intros Hnd; [constructor |].
  cbn in Hnd. apply NoDup_cons in Hnd as [Hxl Hnd].
  constructor; [now apply IH |].
  apply Forall_forall. intros y Hy. rewrite Forall_forall in Hx.
  split; [now apply Hx |]. intros Hyx.
  destruct (fieldErrorLe_both _ _ (Hx y Hy) Hyx) as [Hm Hd].
  apply Hxl. rewrite (same_fields_same_key _ _ Hm Hd).
  now apply list_elem_of_fmap_2.
Qed.

(** X22: the result of [merge] does not depend on the order in which the
    map of grouped errors is ranged over, nor on how [sort.Slice] sorts: it
    is strictly ascending by message and then details, no two of its errors
    sharing both, and the paths of each of its errors are in ascending
    order. *)
Theorem merge_sorted_and_order_independent
    (errs : list FieldError) (ranged : list (string * FieldError)) :
  ranged ≡ₚ map_to_list (grouped errs) ->
  mergeRanged ranged = merge errs
  /\ StronglySorted fieldErrorLt (merge errs)
  /\ Forall (fun r => StronglySorted stringLe (Paths r)) (merge errs)
  /\ (forall sorted,
        StronglySorted fieldErrorLe sorted ->
        sorted ≡ₚ map finish ranged ->
        sorted = merge errs).
Proof.
  intros Hranged.
  assert (Hperm : map finish ranged ≡ₚ map finish (map_to_list (grouped errs)))
    by now apply Permutation_map.
  assert (Hsorted : StronglySorted fieldErrorLe (merge errs))
    by apply (StronglySorted_merge_sort fieldErrorLe).
  assert (Hmerge : merge errs ≡ₚ map finish (map_to_list (grouped errs)))
    by apply (merge_sort_Permutation fieldErrorLe).
  assert (Hunique : forall sorted,
    StronglySorted fieldErrorLe sorted -> sorted ≡ₚ map finish ranged -> sorted = merge errs).
  { intros sorted Hs Hp.
    apply (StronglySorted_unique_strong fieldErrorLe); [| exact Hs | exact Hsorted |].
    - intros x y Hx Hy. apply (finished_inj errs).
      + now rewrite <- Hperm, <- Hp.
      + now rewrite <- Hmerge.
    - now rewrite Hp, Hperm, Hmerge. }
  split; [| split; [| split; [| exact Hunique]]].
  - apply Hunique.
    + apply (StronglySorted_merge_sort fieldErrorLe).
    + apply (merge_sort_Permutation fieldErrorLe).
  - apply strictly_sorted; [exact Hsorted | apply merge_keys_NoDup].
  - apply Forall_forall. intros r Hr. apply merge_elem_of in Hr as (k & v & _ & ->).
    cbn. apply sortStrings_Sorted.
Qed.

(** X23: [merge] groups the errors by their key, message-details: no two
    of its errors have the same key; each has the message and details of an
    error given; every path of every error given is among the paths of the
    merged error of its key, and a merged error has no path but those of
    the errors of its key. *)
Theorem merge_groups_by_key (errs : list FieldError) :
  NoDup (map key (merge errs))
  /\ (forall e p, e ∈ errs -> p ∈ Paths e ->
        exists r, r ∈ merge errs /\ key r = key e /\ p ∈ Paths r)
  /\ (forall r, r ∈ merge errs ->
        (exists e, e ∈ errs /\ Message r = Message e /\ Details r = Details e)
        /\ forall p, p ∈ Paths r -> exists e, e ∈ errs /\ key e = key r /\ p ∈ Paths e).
Proof.
  split; [apply merge_keys_NoDup | split].
  - intros e p He Hp. destruct (grouped_covers errs e He) as (v & Hv & Hpaths).
    exists (finish (key e, v)). split; [| split].
    + apply merge_elem_of. eauto.
    + rewrite key_finish. cbn. now apply (grouped_key errs).
    + cbn. rewrite sortStrings_Permutation. now apply Hpaths.
  - intros r Hr. apply merge_elem_of in Hr as (k & v & Hv & ->).
    destruct (grouped_sound errs k v Hv) as [(e & He & Hk & Hm & Hd) Hpaths]. split.
    + exists e. cbn. auto.
    + intros p Hp. cbn in Hp. rewrite sortStrings_Permutation in Hp.
      rewrite key_finish. cbn. rewrite (grouped_key _ _ _ Hv). now apply Hpaths.
Qed.

End MergeProperties.

(** ** The text of a field error *)

Section ErrorProperties.
Import validation.

Lemma Error_lines (e : option FieldError) :
  Error e = strings_Join (map errorLine (merge (normalized e))) newline.
Proof. reflexivity. Qed.

Lemma merge_one (e : FieldError) : merge [e] = [finish (key e, e)].
Proof.
  unfold merge, grouped. cbn [fold_left]. rewrite lookup_empty, insert_empty.
  now rewrite map_to_list_singleton.
Qed.

Lemma merge_two_same_key (e1 e2 : FieldError) :
  key e1 = key e2 ->
  merge [e1; e2]
  = [finish (key e1, Build_FieldError (Message e1) (mergePaths (Paths e1) (Paths e2))
                                      (Details e1) (errors e1))].
Proof.
  intros Hk. unfold merge, grouped. cbn [fold_left].
  rewrite lookup_empty, insert_empty, <- Hk, lookup_singleton_eq, insert_singleton_eq.
  now rewrite map_to_list_singleton.
Qed.

(** X24: the text of a field error.  A nil error has the empty text.  An
    error of one message with its paths reads as the message, a colon and
    the paths in ascending order, separated by commas, with the details, if
    any, on a second line.  Two such errors of the same message and details,
    collected with [Also], read as one, with the paths of both, each once
    beyond the duplicates the first had, in ascending order. *)
Theorem Error_of_leaves (m d : string) (paths paths' : list string) :
  m <> EmptyString ->
  Error None = EmptyString
  /\ Error (Some (Build_FieldError m paths d []))
     = errorLine (Build_FieldError m (sortStrings paths) d [])
  /\ Error (Also (Some (Build_FieldError m paths d [])) [Some (Build_FieldError m paths' d [])])
     = errorLine (Build_FieldError m (sortStrings (mergePaths paths paths')) d []).
Proof.
  intros Hm. apply String.eqb_neq in Hm.
  split; [reflexivity | split].
  - rewrite Error_lines. cbn [normalized normalizedValue Message Paths Details errors flat_map].
    rewrite Hm. cbn [negb app]. rewrite merge_one. reflexivity.
  - rewrite Error_lines, normalized_Also.
    cbn [normalized normalizedValue Message Paths Details errors flat_map].
    rewrite Hm. cbn [negb app]. rewrite merge_two_same_key by reflexivity. reflexivity.
Qed.

End ErrorProperties.

(** The text the tests expect for two missing fields. *)
Lemma Error_of_leaves_witness :
  validation.Error (validation.ErrMissingField ["name"; "default"])
  = "missing field(s): default, name"
  /\ validation.Error
       (validation.Also (validation.ErrMissingField ["name"])
                        [validation.ErrMissingField ["default"; "name"]])
     = "missing field(s): default, name".
Proof.
  destruct (Error_of_leaves "missing field(s)" EmptyString ["name"; "default"] [])
    as (_ & Hone & _); [discriminate |].
  destruct (Error_of_leaves "missing field(s)" EmptyString ["name"] ["default"; "name"])
    as (_ & _ & Htwo); [discriminate |].
  split.
  - unfold validation.ErrMissingField. rewrite Hone. reflexivity.
  - unfold validation.ErrMissingField. rewrite Htwo. reflexivity.
Defined.

(** Three reported errors, two of one message: the map ranged over in either
    order gives the same two merged errors. *)
Lemma merge_sorted_and_order_independent_witness :
  SampleErrors.ranged ≡ₚ map_to_list (validation.grouped SampleErrors.reported)
  /\ validation.mergeRanged SampleErrors.ranged
     = [validation.Build_FieldError "expected exactly one, got both" ["x"] EmptyString [];
        validation.Build_FieldError "missing field(s)" ["default"; "name"] EmptyString []].
Proof.
  assert (Hranged : SampleErrors.ranged
                    ≡ₚ map_to_list (validation.grouped SampleErrors.reported)).
  { unfold SampleErrors.ranged. apply reverse_Permutation. }
  split; [exact Hranged |].
  destruct (merge_sorted_and_order_independent SampleErrors.reported SampleErrors.ranged Hranged)
    as (Hsame & _).
  rewrite Hsame. reflexivity.
Defined.

(** ** Text helpers *)

Lemma sepFree_append (sep : ascii) (a b : string) :
  sepFree sep (a ++ b)%string = sepFree sep a && sepFree sep b.
Proof.
  unfold sepFree. induction a as [| c a IH]; [reflexivity |].
  change (list_ascii_of_string (String c a ++ b)%string)
    with (c :: list_ascii_of_string (a ++ b)%string).
  cbn [forallb list_ascii_of_string]. now rewrite IH, andb_assoc.
Qed.

Lemma strings_Split_sepFree (sep : ascii) (s : string) :
  sepFree sep s = true -> strings_Split s sep = [s].
Proof.
  unfold sepFree. induction s as [| c s IH]; cbn; [reflexivity |].
  intros Hd. apply andb_prop in Hd as [Hc Hs]. apply negb_true_iff in Hc.
  rewrite Hc, (IH Hs). reflexivity.
Qed.

Lemma strings_Split_pieces_sepFree (sep : ascii) (s : string) :
  Forall (fun p => sepFree sep p = true) (strings_Split s sep).
Proof.
  unfold sepFree. induction s as [| c s IH]; cbn; [repeat constructor |].
  destruct (Ascii.eqb c sep) eqn:Hc.
  - constructor; [reflexivity | exact IH].
  - destruct (strings_Split s sep) as [| first more]; [repeat constructor; cbn; now rewrite Hc |].
    inversion IH as [| ? ? Hfirst Hmore]; subst.
    constructor; [cbn; now rewrite Hc, Hfirst | exact Hmore].
Qed.

Lemma strings_Split_append (sep : ascii) (a b : string) :
  sepFree sep a = true ->
  strings_Split (a ++ String sep b)%string sep = a :: strings_Split b sep.
Proof.
  unfold sepFree. induction a as [| c a IH]; intros Ha.
  - change (strings_Split (String sep b) sep = [EmptyString] ++ strings_Split b sep).
    cbn [strings_Split]. now rewrite Ascii.eqb_refl.
  - cbn in Ha. apply andb_prop in Ha as [Hc Ha]. apply negb_true_iff in Hc.
    change (String c a ++ String sep b)%string with (String c (a ++ String sep b)%string).
    cbn [strings_Split]. now rewrite Hc, (IH Ha).
Qed.

(** Splitting what was joined gives the pieces back, when no piece holds the
    separator. *)
Lemma strings_Split_Join (sep : ascii) (lines : list string) :
  lines <> [] ->
  Forall (fun p => sepFree sep p = true) lines ->
  strings_Split (strings_Join lines (String sep EmptyString)) sep = lines.
Proof.
  unfold strings_Join. intros Hne Hall. induction Hall as [| x l Hx Hl IH]; [contradiction |].
  destruct l as [| y l].
  - cbn. now apply strings_Split_sepFree.
  - change (String.concat (String sep EmptyString) (x :: y :: l))
      with (x ++ String sep (String.concat (String sep EmptyString) (y :: l)))%string.
    rewrite (strings_Split_append sep _ _ Hx). f_equal. apply IH. discriminate.
Qed.

Section IndentProperties.
Import utils.

Lemma Indent_lines (text by_ : string) :
  sepFree (ascii_of_byte x0a) by_ = true ->
  strings_Split (Indent text by_) (ascii_of_byte x0a)
  = map (fun line => (by_ ++ line)%string) (strings_Split text (ascii_of_byte x0a)).
Proof.
  intros Hby. unfold Indent. apply (strings_Split_Join (ascii_of_byte x0a)).
  - pose proof (strings_Split_not_nil text (ascii_of_byte x0a)).
    destruct (strings_Split text (ascii_of_byte x0a)); [contradiction | discriminate].
  - apply Forall_map. eapply Forall_impl; [apply strings_Split_pieces_sepFree |].
    intros line Hline. now rewrite sepFree_append, Hby, Hline.
Qed.

(** X25: [Indent] puts [by] before every line and changes nothing else:
    with an empty [by] the text is as it was; with a [by] that holds no
    newline the indented text has the same number of lines, each line being
    [by] followed by the line of the text; and indenting twice is indenting
    once by both. *)
Theorem Indent_lines_prefixed (text by_ by' : string) :
  sepFree (ascii_of_byte x0a) by_ = true ->
  Indent text EmptyString = text
  /\ strings_Split (Indent text by_) (ascii_of_byte x0a)
     = map (fun line => (by_ ++ line)%string) (strings_Split text (ascii_of_byte x0a))
  /\ length (strings_Split (Indent text by_) (ascii_of_byte x0a))
     = length (strings_Split text (ascii_of_byte x0a))
  /\ Indent (Indent text by_) by' = Indent text (by' ++ by_).
Proof.
  intros Hby. split; [| split; [| split]].
  - unfold Indent. cbn [String.append]. rewrite map_id.
    apply (strings_Join_Split text (ascii_of_byte x0a)).
  - now apply Indent_lines.
  - now rewrite Indent_lines, length_map.
  - unfold Indent at 1. rewrite (Indent_lines _ _ Hby). unfold Indent.
    rewrite map_map. f_equal. apply map_ext. intros line. now rewrite append_assoc.
Qed.

(** X26: the name of an environment variable that [PropertyToEnvUnprefixed]
    and [PropertyToEnv] make holds no dot and no dash, whatever the property
    name: each dot and dash of the upper-cased name has become an underscore
    and every other byte is as it was. *)
Theorem PropertyToEnv_no_dot_no_dash (strings_ToUpper : string -> string) (propertyName : string) :
  let upper := strings_ToUpper propertyName in
  let env := PropertyToEnvUnprefixed strings_ToUpper propertyName in
  sepFree "." env = true
  /\ sepFree "-" env = true
  /\ String.length env = String.length upper
  /\ (forall n c, String.get n upper = Some c ->
        String.get n env
        = Some (if Ascii.eqb c "." then "_"%char else if Ascii.eqb c "-" then "_"%char else c))
  /\ sepFree "." (PropertyToEnv strings_ToUpper propertyName) = true
  /\ sepFree "-" (PropertyToEnv strings_ToUpper propertyName) = true.
Proof.
  cbn zeta. unfold PropertyToEnv, PropertyToEnvUnprefixed, PropertyToEnvReplacer_Replace, sepFree.
  assert (Hfree : forall sep s, (sep = "." \/ sep = "-")%char ->
    forallb (fun c => negb (Ascii.eqb c sep))
      (list_ascii_of_string
         (string_of_list_ascii
            (map (fun c => if Ascii.eqb c "." then "_"%char
                           else if Ascii.eqb c "-" then "_"%char else c)
                 (list_ascii_of_string s)))) = true).
  { intros sep s Hsep. rewrite list_ascii_of_string_of_list_ascii.
    induction s as [| c s IH]; [reflexivity |]. cbn [list_ascii_of_string map forallb].
    rewrite IH, andb_true_r.
    destruct (Ascii.eqb_spec c ".") as [-> | Hdot]; [now destruct Hsep as [-> | ->] |].
    destruct (Ascii.eqb_spec c "-") as [-> | Hdash]; [now destruct Hsep as [-> | ->] |].
    apply negb_true_iff, Ascii.eqb_neq. destruct Hsep as [-> | ->]; assumption. }
  repeat split; try (apply Hfree; auto).
  - induction (strings_ToUpper propertyName) as [| c s IH]; [reflexivity |].
    cbn. now rewrite IH.
  - induction (strings_ToUpper propertyName) as [| c s IH]; intros n ch; [discriminate |].
    destruct n as [| n]; cbn.
    + now intros [= ->].
    + apply IH.
Qed.

End IndentProperties.

Lemma Indent_lines_prefixed_witness :
  utils.Indent ("a" ++ newline ++ "b") "  " = ("  a" ++ newline ++ "  b")%string
  /\ utils.Indent (utils.Indent ("a" ++ newline ++ "b") "  ") "> "
     = utils.Indent ("a" ++ newline ++ "b") ">   ".
Proof.
  destruct (Indent_lines_prefixed ("a" ++ newline ++ "b") "  " "> ") as (_ & _ & _ & Htwice);
    [reflexivity |].
  split; [reflexivity | exact Htwice].
Defined.

Section HelperErrorProperties.
Import validation.

Lemma Error_leaf (m : string) (paths : list string) :
  m <> EmptyString ->
  Error (Some (Build_FieldError m paths EmptyString []))
  = (m ++ ": " ++ strings_Join (sortStrings paths) ", ")%string.
Proof.
  intros Hm. apply String.eqb_neq in Hm.
  rewrite Error_lines. cbn [normalized normalizedValue Message Paths Details errors flat_map].
  rewrite Hm. cbn [negb app]. rewrite merge_one. reflexivity.
Qed.

(** X27: the text of each error the helpers build is the helper's message,
    a colon and the field paths given, in ascending order and separated by
    commas, on one line: the order the paths are given in does not show. *)
Theorem helper_errors_text (value : string) (fieldPaths : list string) :
  let text := fun m => (m ++ ": " ++ strings_Join (sortStrings fieldPaths) ", ")%string in
  Error (ErrMissingField fieldPaths) = text "missing field(s)"
  /\ Error (ErrDisallowedFields fieldPaths) = text "must not set the field(s)"
  /\ Error (ErrDisallowedUpdateDeprecatedFields fieldPaths)
     = text "must not update deprecated field(s)"
  /\ Error (ErrMissingOneOf fieldPaths) = text "expected exactly one, got neither"
  /\ Error (ErrMultipleOneOf fieldPaths) = text "expected exactly one, got both"
  /\ Error (ErrDuplicate value fieldPaths)
     = text ("duplicated value, must be unique: " ++ value)%string
  /\ (forall reordered, reordered ≡ₚ fieldPaths ->
        Error (ErrMissingField reordered) = Error (ErrMissingField fieldPaths)
        /\ Error (ErrDisallowedFields reordered) = Error (ErrDisallowedFields fieldPaths)
        /\ Error (ErrDisallowedUpdateDeprecatedFields reordered)
           = Error (ErrDisallowedUpdateDeprecatedFields fieldPaths)
        /\ Error (ErrMissingOneOf reordered) = Error (ErrMissingOneOf fieldPaths)
        /\ Error (ErrMultipleOneOf reordered) = Error (ErrMultipleOneOf fieldPaths)
        /\ Error (ErrDuplicate value reordered) = Error (ErrDuplicate value fieldPaths)).
Proof.
  cbn zeta.
  unfold ErrMissingField, ErrDisallowedFields, ErrDisallowedUpdateDeprecatedFields,
    ErrMissingOneOf, ErrMultipleOneOf, ErrDuplicate.
  repeat split; try (apply Error_leaf; discriminate).
  all: rewrite !Error_leaf by discriminate.
  all: rewrite (sortStrings_unique fieldPaths (sortStrings reordered));
    [reflexivity | apply sortStrings_Sorted |].
  all: now rewrite sortStrings_Permutation.
Qed.

End HelperErrorProperties.
